(** * rdv-monitor: the change-detection and notification core

    A shallow embedding of [monitor_rdv_conciliateur_email.py]: text
    normalization, the availability classifier, the fingerprint, the state
    file, the notifier and the poll loop, followed by the properties the
    specification states about them.

    Python values are modelled as follows.
    - [str] is a list of Unicode code points (Python strings are sequences
      of code points, not of bytes).
    - An exception of class [Exception] is a value [Exception]; a call that
      may raise returns a [result].
    - The outside world (state file, log, SMTP server, event-loop sleep) is
      an explicit record [World] threaded through a state-and-exception
      monad [M]; what the outside world answers in one poll cycle (the
      fetched page, the SMTP dialogue, the file system) is a [CycleEnv].

    The functions that touch the outside world come in two parts.  The
    first takes the terminal, the directory of the state file and the SMTP
    server at their word: [print] returns, [STATE_FILE.exists()] answers,
    the message can be built, and a failing SMTP dialogue fails before the
    server has the message.  Module [Faults] gives the same functions with
    these failures as well, and the properties that depend on them are
    stated about it; [reliable_loop_body], [reliable_run_cycles] and
    [reliable_main] show that the first part is [Faults] on the runs
    without these failures. *)

From Stdlib Require Import ZArith List Bool Lia String Ascii.
From Stdlib Require Import DecimalString.
From Stdlib Require DecimalPos DecimalZ.
Import ListNotations.
Local Open Scope Z_scope.

(* ================================================================= *)
(** ** Strings *)

Definition codepoint := Z.
Definition str := list codepoint.

(** Source literals are written as UTF-8 text and decoded to code points. *)
Fixpoint utf8_decode (bs : list Z) : str :=
  match bs with
  | [] => []
  | b0 :: t0 =>
      if b0 <? 0x80 then b0 :: utf8_decode t0
      else if b0 <? 0xE0 then
        match t0 with
        | b1 :: t1 => ((b0 mod 32) * 64 + b1 mod 64) :: utf8_decode t1
        | _ => []
        end
      else if b0 <? 0xF0 then
        match t0 with
        | b1 :: b2 :: t2 =>
            ((b0 mod 16) * 4096 + (b1 mod 64) * 64 + b2 mod 64) :: utf8_decode t2
        | _ => []
        end
      else
        match t0 with
        | b1 :: b2 :: b3 :: t3 =>
            ((b0 mod 8) * 262144 + (b1 mod 64) * 4096 + (b2 mod 64) * 64 + b3 mod 64)
              :: utf8_decode t3
        | _ => []
        end
  end.

Definition bytes_of_string (s : string) : list Z :=
  map (fun a => Z.of_N (N_of_ascii a)) (list_ascii_of_string s).

Definition lit (s : string) : str := utf8_decode (bytes_of_string s).

Definition LF : codepoint := 10.
Definition CR : codepoint := 13.
Definition SPACE : codepoint := 0x20.

Fixpoint str_eqb (a b : str) : bool :=
  match a, b with
  | [], [] => true
  | x :: a', y :: b' => (x =? y) && str_eqb a' b'
  | _, _ => false
  end.

(** [str.startswith] and the [in] operator on strings. *)
Fixpoint startswith (p s : str) : bool :=
  match p, s with
  | [], _ => true
  | x :: p', y :: s' => (x =? y) && startswith p' s'
  | _ :: _, [] => false
  end.

Fixpoint contains (needle hay : str) : bool :=
  startswith needle hay
  || match hay with
     | [] => false
     | _ :: t => contains needle t
     end.

(** What "is a substring of" means. *)
Definition substring (needle hay : str) : Prop :=
  exists pre post, hay = pre ++ needle ++ post.

(** [str.replace(old, new)] for one-character [old] and [new]. *)
Definition replace_char (old new : codepoint) (s : str) : str :=
  map (fun c => if c =? old then new else c) s.

(** [Py_UNICODE_ISSPACE]: the class behind [str.isspace], [str.strip] and
    the [\s] of a [str] pattern. *)
Definition isspace (c : codepoint) : bool :=
  ((0x09 <=? c) && (c <=? 0x0D))
  || ((0x1C <=? c) && (c <=? 0x20))
  || (c =? 0x85) || (c =? 0xA0) || (c =? 0x1680)
  || ((0x2000 <=? c) && (c <=? 0x200A))
  || (c =? 0x2028) || (c =? 0x2029) || (c =? 0x202F)
  || (c =? 0x205F) || (c =? 0x3000).

(** [re.sub(r"\s+", " ", s)]: every maximal run of whitespace becomes one
    space.  [in_run] tells that the previous character was whitespace. *)
Fixpoint sub_spaces (in_run : bool) (s : str) : str :=
  match s with
  | [] => []
  | c :: t =>
      if isspace c
      then (if in_run then sub_spaces true t else SPACE :: sub_spaces true t)
      else c :: sub_spaces false t
  end.

Definition re_sub_spaces (s : str) : str := sub_spaces false s.

Fixpoint lstrip (s : str) : str :=
  match s with
  | [] => []
  | c :: t => if isspace c then lstrip t else s
  end.

Definition rstrip (s : str) : str := rev (lstrip (rev s)).

Definition strip (s : str) : str := rstrip (lstrip s).

(** The part of the Unicode character database that [str.lower] reads:
    the full lower-case mapping of a code point and the two properties of
    the Final_Sigma context. *)
Record UnicodeDB : Type := {
  to_lower_full : codepoint -> list codepoint;
  is_cased : codepoint -> bool;
  is_case_ignorable : codepoint -> bool
}.

Definition CAPITAL_SIGMA : codepoint := 0x3A3.
Definition FINAL_SIGMA : codepoint := 0x3C2.
Definition SMALL_SIGMA : codepoint := 0x3C3.

(** Facts of the character database on which the normalization relies:
    lower-casing leaves whitespace alone, never produces whitespace, a curly
    quote or a capital sigma out of another character, never erases a
    character, and its images are themselves lower-case. *)
Record UnicodeFacts (db : UnicodeDB) : Prop := {
  lower_space : forall c, isspace c = true -> to_lower_full db c = [c];
  lower_nonempty : forall c, to_lower_full db c <> [];
  lower_no_space : forall c d,
      isspace c = false -> In d (to_lower_full db c) -> isspace d = false;
  lower_quote : forall c d,
      In d (to_lower_full db c) -> d = 0x2018 \/ d = 0x2019 -> d = c;
  lower_fixed : forall c d,
      In d (to_lower_full db c) ->
      to_lower_full db d = [d] /\ d <> CAPITAL_SIGMA;
  lower_sigma :
      to_lower_full db FINAL_SIGMA = [FINAL_SIGMA]
      /\ to_lower_full db SMALL_SIGMA = [SMALL_SIGMA]
}.

(** The database restricted to Latin-1: it agrees with CPython's on every
    string whose code points are below U+0100 (and on the capital sigma). *)
Definition latin1_db : UnicodeDB := {|
  to_lower_full c :=
    if c =? CAPITAL_SIGMA then [SMALL_SIGMA]
    else if ((0x41 <=? c) && (c <=? 0x5A))
            || ((0xC0 <=? c) && (c <=? 0xDE) && negb (c =? 0xD7))
    then [c + 32] else [c];
  is_cased c :=
    ((0x41 <=? c) && (c <=? 0x5A)) || ((0x61 <=? c) && (c <=? 0x7A))
    || (c =? 0xAA) || (c =? 0xB5) || (c =? 0xBA)
    || ((0xC0 <=? c) && (c <=? 0xFF) && negb (c =? 0xD7) && negb (c =? 0xF7));
  is_case_ignorable c :=
    (c =? 0x27) || (c =? 0x2E) || (c =? 0x3A) || (c =? 0x5E) || (c =? 0x60)
    || (c =? 0xA8) || (c =? 0xAD) || (c =? 0xAF) || (c =? 0xB4) || (c =? 0xB7)
    || (c =? 0xB8)
|}.

(* ================================================================= *)
(** ** Exceptions *)

(** The exceptions modelled are instances of [Exception], the class the
    handlers of the program name.  [KeyboardInterrupt] and
    [asyncio.CancelledError], which are not, are the external cancellation
    of the process and stay outside. *)

Inductive ExcKind : Type :=
| FetchError          (* playwright: timeout, network, browser crash *)
| ParseError          (* BeautifulSoup *)
| ValueError          (* int() on a malformed SMTP_PORT *)
| DeliveryError       (* smtplib / ssl / socket *)
| UnicodeEncodeError  (* the utf-8 codec *)
| OSError.            (* file system *)

Record Exception : Type := { exc_kind : ExcKind; exc_msg : str }.

Inductive result (A : Type) : Type :=
| Ok (a : A)
| Raise (e : Exception).
Arguments Ok {A} a.
Arguments Raise {A} e.

(* ================================================================= *)
(** ** Module constants *)

Definition URL : str := Eval vm_compute in
  lit ("https://rdvdaj.apps.paris.fr/rdvdaj/jsp/site/Portal.jsp"
       ++ "?page=appointmentsearch&view=search&category=C_Conciliateur").

Definition BASE_POLL_SEC : Z := 45.
Definition JITTER_SEC : Z := 25.

Definition NEGATIVE_PHRASE_FULL : str := Eval vm_compute in
  lit (" Aucun rendez-vous n'est actuellement disponible."
       ++ " De nouveaux rendez-vous seront proposés prochainement sur cette page.").

Definition REASON_NEGATIVE : str := Eval vm_compute in
  lit "Message négatif exact détecté".
Definition REASON_ABSENT : str := Eval vm_compute in
  lit "Phrase négative absente".

(* ================================================================= *)
(** ** Normalization and classification *)

Section Classifier.

Variable db : UnicodeDB.

(** [BeautifulSoup(html, "html.parser").get_text(separator=" ", strip=True)]:
    the text extraction of the external HTML library. *)
Variable soup_get_text : str -> result str.

(** First character that is not case-ignorable, as the two loops of
    CPython's [handle_capital_sigma] find it. *)
Fixpoint skip_ignorable (s : str) : option codepoint :=
  match s with
  | [] => None
  | c :: t => if is_case_ignorable db c then skip_ignorable t else Some c
  end.

Definition handle_capital_sigma (before_rev after : str) : codepoint :=
  let preceded :=
    match skip_ignorable before_rev with
    | Some c => is_cased db c
    | None => false
    end in
  let not_followed :=
    match skip_ignorable after with
    | Some c => negb (is_cased db c)
    | None => true
    end in
  if preceded && not_followed then FINAL_SIGMA else SMALL_SIGMA.

(** What [str.lower] emits for the character [c] standing between
    [before_rev] (the characters already read, last one first) and
    [after]. *)
Definition lower_image (before_rev : str) (c : codepoint) (after : str) : str :=
  if c =? CAPITAL_SIGMA
  then [handle_capital_sigma before_rev after]
  else to_lower_full db c.

Fixpoint do_lower (before_rev s : str) : str :=
  match s with
  | [] => []
  | c :: t => lower_image before_rev c t ++ do_lower (c :: before_rev) t
  end.

Definition lower (s : str) : str := do_lower [] s.

Definition normalize_text (s : str) : str :=
  let s := replace_char 0xA0 SPACE s in
  let s := replace_char 0x202F SPACE s in
  let s := replace_char 0x2019 0x27 s in
  let s := replace_char 0x2018 0x27 s in
  let s := re_sub_spaces s in
  lower (strip s).

Definition parse_availability (html : str) : result (bool * str) :=
  match soup_get_text html with
  | Raise e => Raise e
  | Ok raw_text =>
      let text := normalize_text raw_text in
      let neg_full_norm := normalize_text NEGATIVE_PHRASE_FULL in
      if contains neg_full_norm text
      then Ok (false, REASON_NEGATIVE)
      else Ok (true, REASON_ABSENT)
  end.

End Classifier.

(* ================================================================= *)
(** ** Fingerprint: [str(hash(html[:50000]))] *)

(** [s[:n]] for a non-negative [n]. *)
Definition slice_to (n : Z) (s : str) : str := firstn (Z.to_nat n) s.

(** CPython hashes a [str] with SipHash-1-3 keyed by the process's hash
    secret, which is drawn at interpreter start-up (hash randomization)
    unless PYTHONHASHSEED fixes it. *)
Record HashSecret : Type := { k0 : Z; k1 : Z }.

Definition u64 (x : Z) : Z := x mod 2 ^ 64.

Definition rotl64 (x b : Z) : Z :=
  u64 (Z.lor (Z.shiftl x b) (Z.shiftr x (64 - b))).

Definition sipstate : Type := (Z * Z * Z * Z)%type.

Definition half_round (v : sipstate) (s t : Z) : sipstate :=
  let '(a, b, c, d) := v in
  let a := u64 (a + b) in
  let c := u64 (c + d) in
  let b := Z.lxor (rotl64 b s) a in
  let d := Z.lxor (rotl64 d t) c in
  let a := rotl64 a 32 in
  (a, b, c, d).

Definition single_round (v : sipstate) : sipstate :=
  let '(v0, v1, v2, v3) := half_round v 13 16 in
  let '(v2, v1, v0, v3) := half_round (v2, v1, v0, v3) 17 21 in
  (v0, v1, v2, v3).

(** Little-endian value of a list of bytes. *)
Definition le_word (bs : list Z) : Z :=
  fold_right (fun b acc => b + 256 * acc) 0 bs.

(** The compression loop over whole 8-byte words; returns the state and
    the remaining (fewer than 8) bytes. *)
Fixpoint sip_blocks (v : sipstate) (bs : list Z) : sipstate * list Z :=
  match bs with
  | b0 :: b1 :: b2 :: b3 :: b4 :: b5 :: b6 :: b7 :: rest =>
      let mi := le_word [b0; b1; b2; b3; b4; b5; b6; b7] in
      let '(v0, v1, v2, v3) := v in
      let '(v0, v1, v2, v3) := single_round (v0, v1, v2, Z.lxor v3 mi) in
      sip_blocks (Z.lxor v0 mi, v1, v2, v3) rest
  | _ => (v, bs)
  end.

Definition siphash13 (key : HashSecret) (src : list Z) : Z :=
  let b := u64 (Z.shiftl (Z.of_nat (List.length src)) 56) in
  let v0 := Z.lxor (k0 key) 0x736f6d6570736575 in
  let v1 := Z.lxor (k1 key) 0x646f72616e646f6d in
  let v2 := Z.lxor (k0 key) 0x6c7967656e657261 in
  let v3 := Z.lxor (k1 key) 0x7465646279746573 in
  let '((v0, v1, v2, v3), tail) := sip_blocks (v0, v1, v2, v3) src in
  let b := Z.lor b (le_word tail) in
  let '(v0, v1, v2, v3) := single_round (v0, v1, v2, Z.lxor v3 b) in
  let v0 := Z.lxor v0 b in
  let v2 := Z.lxor v2 0xff in
  let '(v0, v1, v2, v3) :=
    single_round (single_round (single_round (v0, v1, v2, v3))) in
  Z.lxor (Z.lxor v0 v1) (Z.lxor v2 v3).

(** The character buffer of a [str] object: 1, 2 or 4 bytes a character,
    by the largest code point, little-endian. *)
Definition str_kind (s : str) : Z :=
  let m := fold_right Z.max 0 s in
  if m <? 0x100 then 1 else if m <? 0x10000 then 2 else 4.

Definition encode_cp (kind : Z) (c : codepoint) : list Z :=
  if kind =? 1 then [c]
  else if kind =? 2 then [c mod 256; c / 256]
  else [c mod 256; (c / 256) mod 256; (c / 65536) mod 256; c / 16777216].

Definition str_data (s : str) : list Z := flat_map (encode_cp (str_kind s)) s.

(** [hash(s)] for a [str] on a 64-bit build. *)
Definition py_hash (key : HashSecret) (s : str) : Z :=
  match s with
  | [] => 0
  | _ :: _ =>
      let x := siphash13 key (str_data s) in
      let x := if x <? 2 ^ 63 then x else x - 2 ^ 64 in
      if x =? -1 then -2 else x
  end.

(** [str(n)] for an [int]. *)
Definition str_of_int (n : Z) : str :=
  bytes_of_string (NilZero.string_of_int (Z.to_int n)).

Definition compute_signature (key : HashSecret) (html : str) : str :=
  str_of_int (py_hash key (slice_to 50000 html)).

(** The secrets CPython derives from PYTHONHASHSEED=0, 1 and 2. *)
Definition secret_seed0 : HashSecret := {| k0 := 0; k1 := 0 |}.
Definition secret_seed1 : HashSecret :=
  {| k0 := 12598376723466036009; k1 := 16999324916296290386 |}.
Definition secret_seed2 : HashSecret :=
  {| k0 := 4611336564914921517; k1 := 11932672506142756049 |}.

(* ================================================================= *)
(** ** The outside world *)

(** [STATE_FILE] as text: absent, or present with its decoded content.  A
    file whose bytes are not UTF-8, or that cannot be read, is a present
    file read under [ReadFails]. *)
Inductive FileState : Type :=
| Absent
| Present (content : str).

Record Mail : Type := {
  mail_host : str;
  mail_port : Z;
  mail_from : str;
  mail_to : str;
  mail_subject : str;
  mail_body : str
}.

Record World : Type := {
  state_file : FileState;      (* rdv_seen_state.txt *)
  stdout : list str;           (* lines printed, oldest first *)
  log_file : list str;         (* chunks appended to rdv_monitor.log *)
  smtp_sessions : nat;         (* SMTP connections opened *)
  outbox : list Mail;          (* messages the SMTP server accepted *)
  slept : list Z               (* asyncio.sleep durations *)
}.

Definition set_state_file (f : FileState) (w : World) : World :=
  {| state_file := f; stdout := stdout w; log_file := log_file w;
     smtp_sessions := smtp_sessions w; outbox := outbox w; slept := slept w |}.

Definition add_stdout (line : str) (w : World) : World :=
  {| state_file := state_file w; stdout := stdout w ++ [line];
     log_file := log_file w; smtp_sessions := smtp_sessions w;
     outbox := outbox w; slept := slept w |}.

Definition add_log_file (chunk : str) (w : World) : World :=
  {| state_file := state_file w; stdout := stdout w;
     log_file := log_file w ++ [chunk]; smtp_sessions := smtp_sessions w;
     outbox := outbox w; slept := slept w |}.

Definition add_smtp_session (w : World) : World :=
  {| state_file := state_file w; stdout := stdout w; log_file := log_file w;
     smtp_sessions := S (smtp_sessions w); outbox := outbox w;
     slept := slept w |}.

Definition add_outbox (m : Mail) (w : World) : World :=
  {| state_file := state_file w; stdout := stdout w; log_file := log_file w;
     smtp_sessions := smtp_sessions w; outbox := outbox w ++ [m];
     slept := slept w |}.

Definition add_slept (d : Z) (w : World) : World :=
  {| state_file := state_file w; stdout := stdout w; log_file := log_file w;
     smtp_sessions := smtp_sessions w; outbox := outbox w;
     slept := slept w ++ [d] |}.

(** Computations with effects on the world that may raise; the effects made
    before an exception stay. *)
Definition M (A : Type) : Type := World -> World * result A.

Definition ret {A : Type} (a : A) : M A := fun w => (w, Ok a).

Definition bind {A B : Type} (c : M A) (k : A -> M B) : M B :=
  fun w =>
    match c w with
    | (w', Ok a) => k a w'
    | (w', Raise e) => (w', Raise e)
    end.

(** [try: body / except Exception as e: handler e]. *)
Definition try_except {A : Type} (body : M A) (handler : Exception -> M A) : M A :=
  fun w =>
    match body w with
    | (w', Ok a) => (w', Ok a)
    | (w', Raise e) => handler e w'
    end.

Definition lift {A : Type} (r : result A) : M A := fun w => (w, r).

Declare Scope monad_scope.
Delimit Scope monad_scope with monad.
Notation "x <- c ;; k" := (bind c (fun x => k))
  (at level 61, c at next level, right associativity) : monad_scope.
Notation "' p <- c ;; k" := (bind c (fun x => let p := x in k))
  (at level 61, p pattern, c at next level, right associativity) : monad_scope.
Notation "c ;;; k" := (bind c (fun _ => k))
  (at level 61, right associativity) : monad_scope.
Local Open Scope monad_scope.

(* ----------------------------------------------------------------- *)
(** *** What the environment answers *)

Inductive Platform : Type := Posix | Windows.

Definition os_linesep (p : Platform) : str :=
  match p with
  | Posix => [LF]
  | Windows => [CR; LF]
  end.

(** What is fixed for the life of one interpreter process. *)
Record Runtime : Type := {
  hash_secret : HashSecret;
  platform : Platform
}.

(** One call of [log]: the wall-clock stamp and whether the log file can be
    appended to. *)
Record LogEnv : Type := {
  now : str;
  log_file_error : option Exception
}.

Inductive ReadOutcome : Type :=
| ReadOk
| ReadFails (e : Exception).

(** [open(..., "w")] truncates the file before anything is written. *)
Inductive WriteOutcome : Type :=
| WriteOk
| OpenFails (e : Exception)                 (* the old file is untouched *)
| WriteFailsAfter (n : nat) (e : Exception). (* [n] characters got out *)

(** [int(os.getenv("SMTP_PORT", "587"))], by what the variable holds. *)
Inductive PortSetting : Type :=
| PortUnset
| PortInt (n : Z)
| PortMalformed (e : Exception).

Record SmtpEnv : Type := {
  SMTP_HOST : option str;
  SMTP_PORT : PortSetting;
  SMTP_USER : option str;
  SMTP_PASS : option str;
  EMAIL_TO : option str
}.

(** The SMTP dialogue (connect, STARTTLS, login, sendmail) either goes
    through or raises somewhere. *)
Inductive SmtpOutcome : Type :=
| Delivered
| SmtpRaises (e : Exception).

(** The answers of one iteration.  Nothing ties the answers of successive
    iterations together: the page, the environment variables and the
    servers may change from one to the next. *)
Record CycleEnv : Type := {
  e_fetch : result str;        (* fetch_html_with_playwright(URL) *)
  e_environ : SmtpEnv;         (* os.environ *)
  e_smtp : SmtpOutcome;
  e_write : WriteOutcome;      (* STATE_FILE.write_text *)
  e_log : LogEnv;
  e_jitter : Z                 (* random.randint(-JITTER_SEC, JITTER_SEC) *)
}.

(* ----------------------------------------------------------------- *)
(** *** Text files *)

(** Reading in text mode: universal newlines turn "\r\n" and "\r" into
    "\n". *)
Fixpoint universal_newlines (s : str) : str :=
  match s with
  | [] => []
  | c :: t =>
      if c =? CR then
        LF :: match t with
              | d :: t' =>
                  if d =? LF then universal_newlines t' else universal_newlines t
              | [] => []
              end
      else c :: universal_newlines t
  end.

(** Writing in text mode: "\n" becomes [os.linesep]. *)
Definition translate_newlines (p : Platform) (s : str) : str :=
  flat_map (fun c => if c =? LF then os_linesep p else [c]) s.

(** The utf-8 codec refuses surrogate code points. *)
Definition is_surrogate (c : codepoint) : bool := (0xD800 <=? c) && (c <=? 0xDFFF).

Definition utf8_encodable (s : str) : bool := forallb (fun c => negb (is_surrogate c)) s.

Definition MSG_ENCODE : str := Eval vm_compute in
  lit "'utf-8' codec can't encode character: surrogates not allowed".
Definition MSG_NOT_FOUND : str := Eval vm_compute in
  lit "[Errno 2] No such file or directory: 'rdv_seen_state.txt'".

(** [STATE_FILE.exists()] *)
Definition path_exists : M bool :=
  fun w => (w, Ok match state_file w with Absent => false | Present _ => true end).

(** [STATE_FILE.read_text(encoding="utf-8")] *)
Definition read_text (r : ReadOutcome) : M str :=
  fun w =>
    match state_file w with
    | Absent => (w, Raise {| exc_kind := OSError; exc_msg := MSG_NOT_FOUND |})
    | Present content =>
        match r with
        | ReadOk => (w, Ok (universal_newlines content))
        | ReadFails e => (w, Raise e)
        end
    end.

(** [STATE_FILE.write_text(data, encoding="utf-8")] *)
Definition write_text (p : Platform) (o : WriteOutcome) (data : str) : M unit :=
  fun w =>
    match o with
    | OpenFails e => (w, Raise e)
    | WriteOk =>
        if utf8_encodable data
        then (set_state_file (Present (translate_newlines p data)) w, Ok tt)
        else (set_state_file (Present []) w,
              Raise {| exc_kind := UnicodeEncodeError; exc_msg := MSG_ENCODE |})
    | WriteFailsAfter n e =>
        if utf8_encodable data
        then (set_state_file (Present (firstn n (translate_newlines p data))) w,
              Raise e)
        else (set_state_file (Present []) w,
              Raise {| exc_kind := UnicodeEncodeError; exc_msg := MSG_ENCODE |})
    end.

(* ----------------------------------------------------------------- *)
(** *** [log], [load_state], [save_state] *)

(** [print(line, flush=True)]; standard output is taken to accept it. *)
Definition print (line : str) : M unit := fun w => (add_stdout line w, Ok tt).

(** [with LOG_FILE.open("a") as f: f.write(chunk)] *)
Definition log_file_append (le : LogEnv) (chunk : str) : M unit :=
  fun w =>
    match log_file_error le with
    | None => (add_log_file chunk w, Ok tt)
    | Some e => (w, Raise e)
    end.

Definition log (le : LogEnv) (msg : str) : M unit :=
  let ts := now le in
  let line := lit "[" ++ ts ++ lit "] " ++ msg in
  print line ;;;
  try_except (log_file_append le (line ++ [LF])) (fun _ => ret tt).

Definition load_state (r : ReadOutcome) : M str :=
  present <- path_exists ;;
  if (present : bool) then
    try_except (s <- read_text r ;; ret (strip s)) (fun _ => ret [])
  else ret [].

Definition save_state (p : Platform) (o : WriteOutcome) (s : str) : M unit :=
  try_except (write_text p o s) (fun _ => ret tt).

(* ----------------------------------------------------------------- *)
(** *** [send_email] *)

Definition MSG_CONFIG_INCOMPLETE : str := Eval vm_compute in
  lit "Config email incomplète. Aucune alerte envoyée.".
Definition MSG_EMAIL_SENT : str := Eval vm_compute in
  lit "Email d’alerte envoyé.".

Definition getenv_port (p : PortSetting) : result Z :=
  match p with
  | PortUnset => Ok 587
  | PortInt n => Ok n
  | PortMalformed e => Raise e
  end.

(** Truth value of an [os.getenv] result: [None] and [""] are false. *)
Definition truthy (v : option str) : bool :=
  match v with
  | Some (_ :: _) => true
  | _ => false
  end.

Definition getenv_or_empty (v : option str) : str :=
  match v with
  | Some s => s
  | None => []
  end.

(** The [MIMEText] message with its headers, and where it goes. *)
Definition alert_mail (env : SmtpEnv) (port : Z) (subject body : str) : Mail :=
  {| mail_host := getenv_or_empty (SMTP_HOST env); mail_port := port;
     mail_from := getenv_or_empty (SMTP_USER env);
     mail_to := getenv_or_empty (EMAIL_TO env);
     mail_subject := subject; mail_body := body |}.

(** The [with smtplib.SMTP(...) as server] block. *)
Definition smtp_send (o : SmtpOutcome) (m : Mail) : M unit :=
  fun w =>
    match o with
    | Delivered => (add_outbox m (add_smtp_session w), Ok tt)
    | SmtpRaises e => (add_smtp_session w, Raise e)
    end.

(** [all([host, port, user, pwd, to_addr])] *)
Definition all_set (host : option str) (port : Z) (user pwd to_addr : option str)
  : bool :=
  truthy host && negb (port =? 0) && truthy user && truthy pwd && truthy to_addr.

Definition send_email (env : CycleEnv) (subject body : str) : M unit :=
  let host := SMTP_HOST (e_environ env) in
  port <- lift (getenv_port (SMTP_PORT (e_environ env))) ;;
  let user := SMTP_USER (e_environ env) in
  let pwd := SMTP_PASS (e_environ env) in
  let to_addr := EMAIL_TO (e_environ env) in
  if negb (all_set host port user pwd to_addr)
  then log (e_log env) MSG_CONFIG_INCOMPLETE
  else
    let msg := alert_mail (e_environ env) port subject body in
    smtp_send (e_smtp env) msg ;;;
    log (e_log env) MSG_EMAIL_SENT.

(* ================================================================= *)
(** ** The poll loop *)

Definition MSG_STARTED : str := Eval vm_compute in lit "Surveillance démarrée".
Definition MSG_ALREADY : str := Eval vm_compute in
  lit "Disponibilités déjà signalées. Pas de nouvel email.".
Definition MSG_NONE : str := Eval vm_compute in lit "Aucune disponibilité détectée.".
Definition MSG_ERROR : str := Eval vm_compute in lit "Erreur: ".
Definition SUBJECT : str := Eval vm_compute in
  lit "Alerte rendez-vous conciliateur Paris".

Definition alert_body (detail : str) : str :=
  lit "Des indices de créneaux viennent d’apparaître." ++ [LF]
  ++ lit "Détails: " ++ detail ++ [LF]
  ++ lit "Page: " ++ URL ++ [LF; LF]
  ++ lit "Ouvre la page et réserve sans attendre.".

(** [await fetch_html_with_playwright(url)]: the headless browser is the
    external renderer; it returns the page's markup or raises. *)
Definition fetch_html_with_playwright (env : CycleEnv) (url : str) : M str :=
  lift (e_fetch env).

(** [await asyncio.sleep(d)] *)
Definition sleep (d : Z) : M unit := fun w => (add_slept d w, Ok tt).

Definition sleep_for (env : CycleEnv) : Z :=
  let sleep_for := BASE_POLL_SEC + e_jitter env in
  if sleep_for <? 20 then 20 else sleep_for.

Section Monitor.

Variable db : UnicodeDB.
Variable soup_get_text : str -> result str.
Variable rt : Runtime.

Definition signature_of (html : str) : str :=
  compute_signature (hash_secret rt) html.

(** The [try] block of one iteration; returns the new [last_signature]. *)
Definition try_block (env : CycleEnv) (last_signature : str) : M str :=
  html <- fetch_html_with_playwright env URL ;;
  ' (has_slots, detail) <- lift (parse_availability db soup_get_text html) ;;
  let signature := signature_of html in
  if (has_slots : bool) then
    if negb (str_eqb signature last_signature) then
      let subject := SUBJECT in
      let body := alert_body detail in
      send_email env subject body ;;;
      save_state (platform rt) (e_write env) signature ;;;
      ret signature
    else
      log (e_log env) MSG_ALREADY ;;;
      ret last_signature
  else
    log (e_log env) MSG_NONE ;;;
    ret last_signature.

(** One iteration of [while True]. *)
Definition loop_body (env : CycleEnv) (last_signature : str) : M str :=
  last_signature <-
    try_except (try_block env last_signature)
               (fun e => log (e_log env) (MSG_ERROR ++ exc_msg e) ;;;
                         ret last_signature) ;;
  sleep (sleep_for env) ;;;
  ret last_signature.

(** The iterations answered by [envs], in order. *)
Fixpoint run_cycles (envs : list CycleEnv) (last_signature : str) : M str :=
  match envs with
  | [] => ret last_signature
  | env :: envs' =>
      last_signature <- loop_body env last_signature ;;
      run_cycles envs' last_signature
  end.

(** [main] up to the loop, then the loop on [envs]. *)
Definition main (start_log : LogEnv) (start_read : ReadOutcome)
           (envs : list CycleEnv) : M str :=
  log start_log MSG_STARTED ;;;
  last_signature <- load_state start_read ;;
  run_cycles envs last_signature.

(** A cycle that cannot overwrite a [last_signature] equal to [sig]: its
    fetch fails, or its classification raises or is Unavailable, or its
    document has the fingerprint [sig]. *)
Definition no_new_content (sig : str) (env : CycleEnv) : Prop :=
  match e_fetch env with
  | Raise _ => True
  | Ok html =>
      match parse_availability db soup_get_text html with
      | Ok (true, _) => signature_of html = sig
      | _ => True
      end
  end.

End Monitor.

(** The world after [log] and after [save_state]. *)
Definition logged (le : LogEnv) (msg : str) (w : World) : World :=
  fst (log le msg w).

Definition saved (p : Platform) (o : WriteOutcome) (s : str) (w : World) : World :=
  fst (save_state p o s w).

(* ================================================================= *)
(** ** Concrete libraries, processes and environments *)

(** The HTML library on documents without markup (no "<", no "&"): the
    document is one text node and [get_text(strip=True)] strips it.  Other
    documents are outside this stand-in, which refuses them. *)
Definition plain_get_text (html : str) : result str :=
  if existsb (fun c => (c =? 0x3C) || (c =? 0x26)) html
  then Raise {| exc_kind := ParseError; exc_msg := lit "markup" |}
  else Ok (strip html).

Definition process1 : Runtime := {| hash_secret := secret_seed1; platform := Posix |}.
Definition process2 : Runtime := {| hash_secret := secret_seed2; platform := Posix |}.

Definition doc_slots : str := Eval vm_compute in lit "3 rendez-vous le 12 mars".
Definition doc_other : str := Eval vm_compute in lit "1 rendez-vous le 15 mars".
Definition doc_none : str := Eval vm_compute in
  lit "Accueil  Aucun rendez-vous n’est actuellement disponible." ++ [0xA0; LF]
  ++ lit "De nouveaux rendez-vous seront proposés prochainement sur cette page. Aide".

Definition clock : LogEnv :=
  {| now := lit "2024-03-01 09:00:00"; log_file_error := None |}.

Definition smtp_complete : SmtpEnv :=
  {| SMTP_HOST := Some (lit "smtp.example.org"); SMTP_PORT := PortUnset;
     SMTP_USER := Some (lit "bot@example.org"); SMTP_PASS := Some (lit "secret");
     EMAIL_TO := Some (lit "me@example.org") |}.

Definition smtp_no_host : SmtpEnv :=
  {| SMTP_HOST := None; SMTP_PORT := PortUnset;
     SMTP_USER := Some (lit "bot@example.org"); SMTP_PASS := Some (lit "secret");
     EMAIL_TO := Some (lit "me@example.org") |}.

Definition bad_port : Exception :=
  {| exc_kind := ValueError;
     exc_msg := lit "invalid literal for int() with base 10: 'abc'" |}.

Definition smtp_no_host_bad_port : SmtpEnv :=
  {| SMTP_HOST := None; SMTP_PORT := PortMalformed bad_port;
     SMTP_USER := Some (lit "bot@example.org"); SMTP_PASS := Some (lit "secret");
     EMAIL_TO := Some (lit "me@example.org") |}.

Definition refused : Exception :=
  {| exc_kind := DeliveryError; exc_msg := lit "[Errno 111] Connection refused" |}.

Definition disk_full : Exception :=
  {| exc_kind := OSError; exc_msg := lit "[Errno 28] No space left on device" |}.

Definition cycle_env (html : str) (environ : SmtpEnv) (smtp : SmtpOutcome)
  : CycleEnv :=
  {| e_fetch := Ok html; e_environ := environ; e_smtp := smtp;
     e_write := WriteOk; e_log := clock; e_jitter := 0 |}.

Definition world0 : World :=
  {| state_file := Absent; stdout := []; log_file := []; smtp_sessions := 0;
     outbox := []; slept := [] |}.

Definition world_with_state (content : str) : World :=
  set_state_file (Present content) world0.


(** Number of messages delivered between two worlds. *)
Definition sent_during (w w' : World) : nat :=
  (List.length (outbox w') - List.length (outbox w))%nat.

Definition env_no_host : CycleEnv := cycle_env doc_slots smtp_no_host Delivered.
Definition env_bad_port : CycleEnv :=
  cycle_env doc_slots smtp_no_host_bad_port Delivered.
Definition env_delivers : CycleEnv := cycle_env doc_slots smtp_complete Delivered.
Definition env_other : CycleEnv := cycle_env doc_other smtp_complete Delivered.
Definition env_refused : CycleEnv :=
  cycle_env doc_slots smtp_complete (SmtpRaises refused).

(* ================================================================= *)
(** ** Notions used in the proofs *)

(** Whitespace in normal form: words of non-space characters separated by
    exactly one U+0020, with no space at either end. *)
Inductive words : str -> Prop :=
| words_one c : isspace c = false -> words [c]
| words_char c s : isspace c = false -> words s -> words (c :: s)
| words_space c s : isspace c = false -> words s -> words (c :: SPACE :: s).

(** Every whitespace character is a U+0020 that follows no other
    whitespace; [prev] tells whether the character before was whitespace. *)
Fixpoint tidy (prev : bool) (s : str) : Prop :=
  match s with
  | [] => True
  | c :: t =>
      if isspace c then c = SPACE /\ prev = false /\ tidy true t
      else tidy false t
  end.

Definition not_curly (c : codepoint) : Prop := c <> 0x2018 /\ c <> 0x2019.

Definition lower_stable (db : UnicodeDB) (c : codepoint) : Prop :=
  to_lower_full db c = [c] /\ c <> CAPITAL_SIGMA.

(** Whether the text read so far ends in whitespace; [b] is the answer
    before [x]. *)
Definition ends_in_space (b : bool) (x : str) : bool :=
  fold_left (fun _ c => isspace c) x b.

(** A page that shows the official sentence with other line breaks and
    spaces, and two ways of spacing one text. *)
Definition doc_spaced_a : str := Eval vm_compute in
  lit "Aucun" ++ [0xA0; LF; 0x2009] ++ lit "rendez-vous".
Definition doc_spaced_b : str := Eval vm_compute in
  lit "Aucun" ++ [0x3000] ++ lit "rendez-vous".
Definition doc_banner : str := Eval vm_compute in
  lit "Mairie de Paris  -" ++ NEGATIVE_PHRASE_FULL ++ lit "  Mentions".

(** The port [send_email] works with. *)
Definition port_of (env : SmtpEnv) : Z :=
  match getenv_port (SMTP_PORT env) with
  | Ok port => port
  | Raise _ => 587
  end.

(** SMTP_PORT parses and [all([...])] holds: [send_email] goes on to the
    server. *)
Definition notifier_ready (env : SmtpEnv) : bool :=
  match getenv_port (SMTP_PORT env) with
  | Ok port =>
      all_set (SMTP_HOST env) port (SMTP_USER env) (SMTP_PASS env) (EMAIL_TO env)
  | Raise _ => false
  end.




(** The one alert the program ever sends. *)
Definition the_alert (env : SmtpEnv) : Mail :=
  alert_mail env (port_of env) SUBJECT (alert_body REASON_ABSENT).

Definition timed_out : Exception :=
  {| exc_kind := FetchError; exc_msg := lit "Timeout 30000ms exceeded." |}.

Definition env_timeout : CycleEnv :=
  {| e_fetch := Raise timed_out; e_environ := smtp_complete; e_smtp := Delivered;
     e_write := WriteOk; e_log := clock; e_jitter := -25 |}.


Definition is_ascii_digit (c : codepoint) : Prop := 48 <= c <= 57.

(** A minus sign or a decimal digit. *)
Definition is_int_char (c : codepoint) : Prop := c = 45 \/ is_ascii_digit c.

(** The cycle fetched a page that is classified Available and has the
    fingerprint [sig]. *)
Definition shows_page (db : UnicodeDB) (soup_get_text : str -> result str)
           (rt : Runtime) (sig : str) (env : CycleEnv) : Prop :=
  exists html detail,
    e_fetch env = Ok html
    /\ parse_availability db soup_get_text html = Ok (true, detail)
    /\ signature_of rt html = sig.




Definition denied : Exception :=
  {| exc_kind := OSError;
     exc_msg := lit "[Errno 13] Permission denied: 'rdv_seen_state.txt'" |}.


(* ================================================================= *)
(** ** The monitor when the terminal, the directory and the server fail *)

(** The definitions above describe the runs in which [print] returns,
    [STATE_FILE.exists()] answers, the message can be built and an SMTP
    failure comes before the server has taken it.  Module [Faults] gives
    [log], [load_state], [send_email] and the loop once more, from the same
    source lines, with the outside world free to fail at these points too:
    - [print(line, flush=True)] stands outside the [try] of [log] and raises
      when standard output cannot encode or take the line;
    - [STATE_FILE.exists()] stands outside the [try] of [load_state] and
      raises on an [OSError] that [pathlib] does not read as absence;
    - [MIMEText(body, "plain", "utf-8")] raises on a body that utf-8 cannot
      encode, and [ssl.create_default_context()] may raise, both before any
      connection;
    - leaving the [with smtplib.SMTP(...)] block sends QUIT, which may raise
      after [sendmail] has returned, and so may the [log] call that follows
      the block.
    The types and functions that do not depend on these points ([World],
    [M], the text files, [save_state], the classifier, the fingerprint) are
    shared. *)
Module Faults.

(** One call of [log]: the wall-clock stamp, what [print] does with the
    line it is given (the exception it raises, if any), and whether the log
    file can be appended to. *)
Record LogEnv : Type := {
  now : str;
  stdout_error : str -> option Exception;
  log_file_error : option Exception
}.

(** [STATE_FILE.exists()]: [os.stat] answers (the file is there, or the
    error means that it is not), or fails otherwise, as with EACCES on a
    directory of the path. *)
Inductive ExistsOutcome : Type :=
| ExistsAnswers
| ExistsRaises (e : Exception).

(** The [with smtplib.SMTP(...) as server] block: connect, STARTTLS, login,
    [msg.as_string()], [sendmail], and QUIT on leaving the block. *)
Inductive SmtpOutcome : Type :=
| Delivered
| SmtpRaises (e : Exception)            (* before the server took the message *)
| RaisesAfterDelivery (e : Exception).  (* [sendmail] returned, leaving raised *)

(** The answers of one iteration. *)
Record CycleEnv : Type := {
  e_fetch : result str;        (* fetch_html_with_playwright(URL) *)
  e_environ : SmtpEnv;         (* os.environ *)
  e_tls : option Exception;    (* ssl.create_default_context() *)
  e_smtp : SmtpOutcome;
  e_write : WriteOutcome;      (* STATE_FILE.write_text *)
  e_log : LogEnv;
  e_jitter : Z                 (* random.randint(-JITTER_SEC, JITTER_SEC) *)
}.

(** [STATE_FILE.exists()] *)
Definition path_exists (x : ExistsOutcome) : M bool :=
  fun w =>
    match x with
    | ExistsAnswers =>
        (w, Ok match state_file w with Absent => false | Present _ => true end)
    | ExistsRaises e => (w, Raise e)
    end.

(** [print(line, flush=True)]; [stdout] counts the lines on which [print]
    returned. *)
Definition print (le : LogEnv) (line : str) : M unit :=
  fun w =>
    match stdout_error le line with
    | None => (add_stdout line w, Ok tt)
    | Some e => (w, Raise e)
    end.

(** [with LOG_FILE.open("a") as f: f.write(chunk)] *)
Definition log_file_append (le : LogEnv) (chunk : str) : M unit :=
  fun w =>
    match log_file_error le with
    | None => (add_log_file chunk w, Ok tt)
    | Some e => (w, Raise e)
    end.

Definition log (le : LogEnv) (msg : str) : M unit :=
  let ts := now le in
  let line := lit "[" ++ ts ++ lit "] " ++ msg in
  print le line ;;;
  try_except (log_file_append le (line ++ [LF])) (fun _ => ret tt).

Definition load_state (x : ExistsOutcome) (r : ReadOutcome) : M str :=
  present <- path_exists x ;;
  if (present : bool) then
    try_except (s <- read_text r ;; ret (strip s)) (fun _ => ret [])
  else ret [].

(** [MIMEText(body, "plain", "utf-8")] encodes the body on the spot, with
    the strict utf-8 codec; the payload stands for the body it encodes. *)
Definition MIMEText (body : str) : result str :=
  if utf8_encodable body then Ok body
  else Raise {| exc_kind := UnicodeEncodeError; exc_msg := MSG_ENCODE |}.

(** [ssl.create_default_context()] *)
Definition create_default_context (o : option Exception) : result unit :=
  match o with
  | None => Ok tt
  | Some e => Raise e
  end.

(** The [with smtplib.SMTP(...) as server] block. *)
Definition smtp_send (o : SmtpOutcome) (m : Mail) : M unit :=
  fun w =>
    match o with
    | Delivered => (add_outbox m (add_smtp_session w), Ok tt)
    | SmtpRaises e => (add_smtp_session w, Raise e)
    | RaisesAfterDelivery e => (add_outbox m (add_smtp_session w), Raise e)
    end.

Definition send_email (env : CycleEnv) (subject body : str) : M unit :=
  let host := SMTP_HOST (e_environ env) in
  port <- lift (getenv_port (SMTP_PORT (e_environ env))) ;;
  let user := SMTP_USER (e_environ env) in
  let pwd := SMTP_PASS (e_environ env) in
  let to_addr := EMAIL_TO (e_environ env) in
  if negb (all_set host port user pwd to_addr)
  then log (e_log env) MSG_CONFIG_INCOMPLETE
  else
    payload <- lift (MIMEText body) ;;
    let msg := alert_mail (e_environ env) port subject payload in
    lift (create_default_context (e_tls env)) ;;;
    smtp_send (e_smtp env) msg ;;;
    log (e_log env) MSG_EMAIL_SENT.

Definition fetch_html_with_playwright (env : CycleEnv) (url : str) : M str :=
  lift (e_fetch env).

Definition sleep_for (env : CycleEnv) : Z :=
  let sleep_for := BASE_POLL_SEC + e_jitter env in
  if sleep_for <? 20 then 20 else sleep_for.

Section Monitor.

Variable db : UnicodeDB.
Variable soup_get_text : str -> result str.
Variable rt : Runtime.

(** The [try] block of one iteration; returns the new [last_signature]. *)
Definition try_block (env : CycleEnv) (last_signature : str) : M str :=
  html <- fetch_html_with_playwright env URL ;;
  ' (has_slots, detail) <- lift (parse_availability db soup_get_text html) ;;
  let signature := signature_of rt html in
  if (has_slots : bool) then
    if negb (str_eqb signature last_signature) then
      let subject := SUBJECT in
      let body := alert_body detail in
      send_email env subject body ;;;
      save_state (platform rt) (e_write env) signature ;;;
      ret signature
    else
      log (e_log env) MSG_ALREADY ;;;
      ret last_signature
  else
    log (e_log env) MSG_NONE ;;;
    ret last_signature.

(** One iteration of [while True]; an exception raised by the handler
    itself leaves the loop. *)
Definition loop_body (env : CycleEnv) (last_signature : str) : M str :=
  last_signature <-
    try_except (try_block env last_signature)
               (fun e => log (e_log env) (MSG_ERROR ++ exc_msg e) ;;;
                         ret last_signature) ;;
  sleep (sleep_for env) ;;;
  ret last_signature.

(** The iterations answered by [envs], in order, up to the first that
    raises. *)
Fixpoint run_cycles (envs : list CycleEnv) (last_signature : str) : M str :=
  match envs with
  | [] => ret last_signature
  | env :: envs' =>
      last_signature <- loop_body env last_signature ;;
      run_cycles envs' last_signature
  end.

(** [main] from its first [log] call on: the start-up, then the loop on
    [envs]. *)
Definition main (start_log : LogEnv) (start_exists : ExistsOutcome)
           (start_read : ReadOutcome) (envs : list CycleEnv) : M str :=
  log start_log MSG_STARTED ;;;
  last_signature <- load_state start_exists start_read ;;
  run_cycles envs last_signature.

(** A cycle that cannot overwrite a [last_signature] equal to [sig]. *)
Definition no_new_content (sig : str) (env : CycleEnv) : Prop :=
  match e_fetch env with
  | Raise _ => True
  | Ok html =>
      match parse_availability db soup_get_text html with
      | Ok (true, _) => signature_of rt html = sig
      | _ => True
      end
  end.

(** The cycle fetched a page that is classified Available and has the
    fingerprint [sig]. *)
Definition shows_page (sig : str) (env : CycleEnv) : Prop :=
  exists html detail,
    e_fetch env = Ok html
    /\ parse_availability db soup_get_text html = Ok (true, detail)
    /\ signature_of rt html = sig.

End Monitor.

(** The line [log] prints for [msg], and whether standard output takes
    it. *)
Definition stamped (le : LogEnv) (msg : str) : str :=
  lit "[" ++ now le ++ lit "] " ++ msg.

Definition accepts (le : LogEnv) (msg : str) : bool :=
  match stdout_error le (stamped le msg) with
  | None => true
  | Some _ => false
  end.

(** The world after a [log] that returned. *)
Definition logged (le : LogEnv) (msg : str) (w : World) : World :=
  match log_file_error le with
  | None => add_log_file (stamped le msg ++ [LF]) (add_stdout (stamped le msg) w)
  | Some _ => add_stdout (stamped le msg) w
  end.

(** [send_email] gets as far as connecting: the configuration is complete,
    the body can be encoded and the TLS context is there. *)
Definition reaches_server (env : CycleEnv) (body : str) : bool :=
  notifier_ready (e_environ env)
  && utf8_encodable body
  && match e_tls env with
     | None => true
     | Some _ => false
     end.

(** ... and the server takes the message. *)
Definition hands_over (env : CycleEnv) (body : str) : bool :=
  reaches_server env body
  && match e_smtp env with
     | Delivered | RaisesAfterDelivery _ => true
     | SmtpRaises _ => false
     end.

(** [send_email] delivers the alert and returns. *)
Definition delivers_and_returns (env : CycleEnv) : bool :=
  notifier_ready (e_environ env)
  && match e_tls env with
     | None => true
     | Some _ => false
     end
  && match e_smtp env with
     | Delivered => true
     | _ => false
     end
  && accepts (e_log env) MSG_EMAIL_SENT.

(** The exception [send_email] raises before the server has the message:
    a malformed SMTP_PORT, no TLS context, a dialogue that fails. *)
Definition failure_before_delivery (env : CycleEnv) : option Exception :=
  match getenv_port (SMTP_PORT (e_environ env)) with
  | Raise e => Some e
  | Ok _ =>
      if notifier_ready (e_environ env) then
        match e_tls env with
        | Some e => Some e
        | None =>
            match e_smtp env with
            | SmtpRaises e => Some e
            | _ => None
            end
        end
      else None
  end.

(** [send_email] raises with nothing delivered and the handler of the loop
    gets its line out: the iteration ends normally and the next one tries
    again. *)
Definition fails_and_goes_on (env : CycleEnv) : bool :=
  match failure_before_delivery env with
  | Some e => accepts (e_log env) (MSG_ERROR ++ exc_msg e)
  | None => false
  end.

End Faults.

(** An environment of the first part, as one of [Faults] in which none of
    the additional failures happens. *)
Definition reliable_log (le : LogEnv) : Faults.LogEnv :=
  {| Faults.now := now le; Faults.stdout_error := fun _ => None;
     Faults.log_file_error := log_file_error le |}.

Definition reliable_smtp (o : SmtpOutcome) : Faults.SmtpOutcome :=
  match o with
  | Delivered => Faults.Delivered
  | SmtpRaises e => Faults.SmtpRaises e
  end.

Definition reliable (env : CycleEnv) : Faults.CycleEnv :=
  {| Faults.e_fetch := e_fetch env; Faults.e_environ := e_environ env;
     Faults.e_tls := None; Faults.e_smtp := reliable_smtp (e_smtp env);
     Faults.e_write := e_write env; Faults.e_log := reliable_log (e_log env);
     Faults.e_jitter := e_jitter env |}.

(** Standard output under an encoding that has the characters [known]
    only; [print] raises [e] on a line with any other. *)
Definition terminal (known : codepoint -> bool) (e : Exception) (line : str)
  : option Exception :=
  if forallb known line then None else Some e.

Definition latin1_error : Exception :=
  {| exc_kind := UnicodeEncodeError;
     exc_msg := lit "'latin-1' codec can't encode character: ordinal not in range(256)" |}.
Definition ascii_error : Exception :=
  {| exc_kind := UnicodeEncodeError;
     exc_msg := lit "'ascii' codec can't encode character: ordinal not in range(128)" |}.

Definition latin1_terminal : str -> option Exception :=
  terminal (fun c => c <? 256) latin1_error.
Definition ascii_terminal : str -> option Exception :=
  terminal (fun c => c <? 128) ascii_error.

Definition clock_on (out : str -> option Exception) : Faults.LogEnv :=
  {| Faults.now := lit "2024-03-01 09:00:00"; Faults.stdout_error := out;
     Faults.log_file_error := None |}.

Definition cycle_on (out : str -> option Exception) (html : str)
           (environ : SmtpEnv) (smtp : Faults.SmtpOutcome) : Faults.CycleEnv :=
  {| Faults.e_fetch := Ok html; Faults.e_environ := environ;
     Faults.e_tls := None; Faults.e_smtp := smtp; Faults.e_write := WriteOk;
     Faults.e_log := clock_on out; Faults.e_jitter := 0 |}.

(** The browser is not installed: Playwright frames the message of its
    error with box-drawing characters. *)
Definition no_browser : Exception :=
  {| exc_kind := FetchError;
     exc_msg := lit "BrowserType.launch: Executable doesn't exist ╔════╗" |}.

Definition env_no_browser : Faults.CycleEnv :=
  {| Faults.e_fetch := Raise no_browser; Faults.e_environ := smtp_complete;
     Faults.e_tls := None; Faults.e_smtp := Faults.Delivered;
     Faults.e_write := WriteOk; Faults.e_log := clock_on latin1_terminal;
     Faults.e_jitter := 0 |}.

(** The server took the message and answers QUIT with an error. *)
Definition quit_failed : Exception :=
  {| exc_kind := DeliveryError; exc_msg := lit "(421, b'4.4.2 Timeout')" |}.

(** The certificate store cannot be read: no TLS context. *)
Definition store_denied : Exception :=
  {| exc_kind := OSError; exc_msg := lit "[WinError 5] Access is denied" |}.

Definition env_no_tls : Faults.CycleEnv :=
  {| Faults.e_fetch := Ok doc_slots; Faults.e_environ := smtp_complete;
     Faults.e_tls := Some store_denied; Faults.e_smtp := Faults.Delivered;
     Faults.e_write := WriteOk; Faults.e_log := clock_on latin1_terminal;
     Faults.e_jitter := 3 |}.


(* ================================================================= *)
(** * Properties *)

Example NEGATIVE_PHRASE_FULL_norm :
  normalize_text latin1_db NEGATIVE_PHRASE_FULL =
  lit ("aucun rendez-vous n'est actuellement disponible."
       ++ " de nouveaux rendez-vous seront proposés prochainement sur cette page.").
Proof. vm_compute. reflexivity. Qed.

Example py_hash_a_seed0 :
  py_hash secret_seed0 (lit "a") = 4644417185603328019.
Proof. vm_compute. reflexivity. Qed.

Example py_hash_html_seed1 :
  py_hash secret_seed1 (lit "<html>a</html>") = -5873805723803259440.
Proof. vm_compute. reflexivity. Qed.

Example py_hash_wide_seed2 :
  py_hash secret_seed2 (lit "€uro") = -5228065706079645683
  /\ py_hash secret_seed2 (lit "123456789abcdef0") = 8492720613253844290
  /\ py_hash secret_seed2 (lit "é") = -6188212167500511484.
Proof. vm_compute. repeat split. Qed.

Example compute_signature_seed1 :
  compute_signature secret_seed1 (lit "<html>a</html>") = lit "-5873805723803259440".
Proof. vm_compute. reflexivity. Qed.

(* ================================================================= *)
(** ** Strings: substring search *)

Lemma startswith_spec (p s : str) :
  startswith p s = true <-> exists post, s = p ++ post.
Proof.
  revert s; induction p as [|x p IH]; intros s; simpl.
  - split; [intros _; now exists s | reflexivity].
  - destruct s as [|y s].
    + split; [discriminate | intros [post H]; discriminate].
    + rewrite andb_true_iff, Z.eqb_eq, IH. split.
      * intros [-> [post ->]]. now exists post.
      * intros [post H]. injection H as -> ->. split; [reflexivity | now exists post].
Qed.

Lemma contains_spec (needle hay : str) :
  contains needle hay = true <-> substring needle hay.
Proof.
  unfold substring. induction hay as [|y hay IH].
  - simpl. rewrite orb_false_r, startswith_spec. split.
    + intros [post H]. now exists [], post.
    + intros [pre [post H]]. destruct pre; [now exists post | discriminate].
  - cbn [contains]. rewrite orb_true_iff, startswith_spec, IH. split.
    + intros [[post H] | [pre [post H]]].
      * now exists [], post.
      * exists (y :: pre), post. now rewrite H.
    + intros [pre [post H]]. destruct pre as [|z pre].
      * left. now exists post.
      * right. injection H as _ H. now exists pre, post.
Qed.

Lemma str_eqb_spec (a b : str) : str_eqb a b = true <-> a = b.
Proof.
  revert b; induction a as [|x a IH]; intros [|y b]; simpl;
    try (split; [discriminate | discriminate]); try tauto.
  rewrite andb_true_iff, Z.eqb_eq, IH. split.
  - now intros [-> ->].
  - intros H; injection H as -> ->; auto.
Qed.

Lemma str_eqb_refl (a : str) : str_eqb a a = true.
Proof. now apply str_eqb_spec. Qed.

Lemma str_eqb_neq (a b : str) : a <> b -> str_eqb a b = false.
Proof.
  intros H. destruct (str_eqb a b) eqn:E; [|reflexivity].
  apply str_eqb_spec in E. contradiction.
Qed.

(* ================================================================= *)
(** ** Whitespace: [re.sub] and [strip] *)

Lemma lstrip_app (a b : str) :
  lstrip (a ++ b) = if forallb isspace a then lstrip b else lstrip a ++ b.
Proof.
  induction a as [|c a IH]; simpl; [reflexivity|].
  destruct (isspace c); simpl; [exact IH | reflexivity].
Qed.

Lemma forallb_rev {A : Type} (f : A -> bool) (l : list A) :
  forallb f (rev l) = forallb f l.
Proof.
  induction l as [|x l IH]; simpl; [reflexivity|].
  rewrite forallb_app, IH. simpl. rewrite andb_true_r. apply andb_comm.
Qed.

Lemma rstrip_cons (c : codepoint) (t : str) :
  rstrip (c :: t) =
  if forallb isspace t then (if isspace c then [] else [c]) else c :: rstrip t.
Proof.
  unfold rstrip. simpl rev. rewrite lstrip_app, forallb_rev.
  destruct (forallb isspace t).
  - simpl. destruct (isspace c); reflexivity.
  - rewrite rev_app_distr. reflexivity.
Qed.

Lemma lstrip_all_space (x : str) : forallb isspace x = true -> lstrip x = [].
Proof.
  induction x as [|c x IH]; simpl; [reflexivity|].
  destruct (isspace c); simpl; [exact IH | discriminate].
Qed.

Lemma strip_all_space (x : str) : forallb isspace x = true -> strip x = [].
Proof. intros H. unfold strip. now rewrite lstrip_all_space. Qed.

Lemma sub_spaces_tidy (s : str) : forall b, tidy b (sub_spaces b s).
Proof.
  induction s as [|c s IH]; intros b; simpl; [exact I|].
  destruct (isspace c) eqn:Ec.
  - destruct b; [apply IH|]. simpl. change (isspace SPACE) with true.
    cbv iota. repeat split. apply IH.
  - simpl. rewrite Ec. apply IH.
Qed.

Lemma words_head (s : str) :
  words s -> exists c t, s = c :: t /\ isspace c = false.
Proof. intros H; destruct H; eauto. Qed.

Lemma words_not_all_space (s : str) : words s -> forallb isspace s = false.
Proof.
  intros H. destruct (words_head s H) as (c & t & -> & Hc). simpl. now rewrite Hc.
Qed.

(** Stripping a tidy string that is not all whitespace leaves words. *)
Lemma strip_tidy_words (x : str) :
  forall b, tidy b x -> forallb isspace x = false -> words (strip x).
Proof.
  induction x as [|c t IH]; intros b Ht Hx; [discriminate|].
  unfold strip in *. simpl in Ht, Hx |- *.
  destruct (isspace c) eqn:Ec.
  - destruct Ht as (_ & _ & Ht). simpl in Hx. now apply (IH true).
  - clear Hx. rewrite rstrip_cons, Ec.
    destruct (forallb isspace t) eqn:Eall; [now constructor|].
    specialize (IH false Ht eq_refl).
    destruct t as [|d t']; [discriminate|].
    simpl in IH, Ht, Eall. destruct (isspace d) eqn:Ed.
    + destruct Ht as (-> & _ & Ht'). simpl in Eall.
      destruct t' as [|e t'']; [discriminate|].
      simpl in Ht', IH. destruct (isspace e) eqn:Ee.
      * destruct Ht' as (_ & Habs & _). discriminate.
      * rewrite rstrip_cons. simpl forallb. rewrite Ee. simpl.
        now apply words_space.
    + now apply words_char.
Qed.

Lemma words_sub_spaces (s : str) : words s -> forall b, sub_spaces b s = s.
Proof.
  induction 1 as [c Hc | c s Hc _ IH | c s Hc _ IH]; intros b; simpl; rewrite Hc.
  - reflexivity.
  - now rewrite IH.
  - change (isspace SPACE) with true. cbv iota. now rewrite IH.
Qed.

Lemma words_lstrip (s : str) : words s -> lstrip s = s.
Proof.
  intros H. destruct (words_head s H) as (c & t & -> & Hc). simpl. now rewrite Hc.
Qed.

Lemma words_rstrip (s : str) : words s -> rstrip s = s.
Proof.
  induction 1 as [c Hc | c s Hc Hs IH | c s Hc Hs IH].
  - rewrite rstrip_cons. simpl. now rewrite Hc.
  - rewrite rstrip_cons, (words_not_all_space s Hs). now rewrite IH.
  - assert (Hsp : forallb isspace (SPACE :: s) = false)
      by (simpl; exact (words_not_all_space s Hs)).
    rewrite rstrip_cons, Hsp, rstrip_cons, (words_not_all_space s Hs).
    now rewrite IH.
Qed.

Lemma words_strip (s : str) : words s -> strip s = s.
Proof. intros H. unfold strip. now rewrite words_lstrip, words_rstrip. Qed.

Lemma words_chars (s : str) :
  words s -> Forall (fun c => isspace c = false \/ c = SPACE) s.
Proof.
  induction 1 as [c Hc | c s Hc _ IH | c s Hc _ IH].
  - constructor; [now left | constructor].
  - constructor; [now left | assumption].
  - constructor; [now left|]. constructor; [now right | assumption].
Qed.

Lemma words_app (l y : str) :
  l <> [] -> Forall (fun d => isspace d = false) l ->
  (y = [] \/ words y \/ exists y', y = SPACE :: y' /\ words y') ->
  words (l ++ y).
Proof.
  induction l as [|d l IH]; intros Hne Hl Hy; [congruence|].
  inversion Hl as [|? ? Hd Hl']; subst.
  destruct l as [|d' l].
  - simpl. destruct Hy as [-> | [Hy | (y' & -> & Hy)]].
    + now constructor.
    + now apply words_char.
    + now apply words_space.
  - change ((d :: d' :: l) ++ y) with (d :: (d' :: l) ++ y).
    apply words_char; [assumption|]. apply IH; [discriminate | assumption | assumption].
Qed.

(** Preservation of a character property by each step. *)
Lemma replace_char_Forall (P : codepoint -> Prop) (old new : codepoint) (s : str) :
  P new -> Forall P s -> Forall P (replace_char old new s).
Proof.
  intros Hn H. unfold replace_char. induction H; simpl; constructor; auto.
  destruct (_ =? _); assumption.
Qed.

Lemma replace_char_removes (old new : codepoint) (s : str) :
  new <> old -> Forall (fun c => c <> old) (replace_char old new s).
Proof.
  intros Hn. unfold replace_char. induction s as [|c s IH]; simpl; constructor; auto.
  destruct (c =? old) eqn:E; [assumption|]. now apply Z.eqb_neq.
Qed.

Lemma replace_char_id (old new : codepoint) (s : str) :
  Forall (fun c => c <> old) s -> replace_char old new s = s.
Proof.
  unfold replace_char. induction 1 as [|c s Hc _ IH]; simpl; [reflexivity|].
  apply Z.eqb_neq in Hc. now rewrite Hc, IH.
Qed.

Lemma sub_spaces_Forall (P : codepoint -> Prop) (s : str) :
  P SPACE -> Forall P s -> forall b, Forall P (sub_spaces b s).
Proof.
  intros Hsp H. induction H as [|c s Hc _ IH]; intros b; simpl; [constructor|].
  destruct (isspace c); [destruct b|]; try constructor; auto.
Qed.

Lemma lstrip_Forall (P : codepoint -> Prop) (s : str) :
  Forall P s -> Forall P (lstrip s).
Proof.
  induction 1 as [|c s Hc Hs IH]; simpl; [constructor|].
  destruct (isspace c); [assumption | now constructor].
Qed.

Lemma strip_Forall (P : codepoint -> Prop) (s : str) :
  Forall P s -> Forall P (strip s).
Proof.
  intros H. unfold strip, rstrip.
  apply Forall_rev, lstrip_Forall, Forall_rev, lstrip_Forall, H.
Qed.

(* ================================================================= *)
(** ** Lower-casing *)

Section LowerFacts.

Variable db : UnicodeDB.
Hypothesis facts : UnicodeFacts db.

Lemma handle_capital_sigma_cases (before_rev after : str) :
  handle_capital_sigma db before_rev after = FINAL_SIGMA
  \/ handle_capital_sigma db before_rev after = SMALL_SIGMA.
Proof.
  unfold handle_capital_sigma. destruct (_ && _); auto.
Qed.

Lemma image_nonspace (before_rev : str) (c : codepoint) (after : str) :
  isspace c = false ->
  lower_image db before_rev c after <> []
  /\ Forall (fun d => isspace d = false) (lower_image db before_rev c after).
Proof.
  intros Hc. unfold lower_image. destruct (c =? CAPITAL_SIGMA).
  - split; [discriminate|]. constructor; [|constructor].
    destruct (handle_capital_sigma_cases before_rev after) as [-> | ->];
      reflexivity.
  - split; [apply (lower_nonempty db facts)|].
    apply Forall_forall. intros d Hd. eapply (lower_no_space db facts); eauto.
Qed.

Lemma image_stable (before_rev : str) (c : codepoint) (after : str) :
  Forall (lower_stable db) (lower_image db before_rev c after).
Proof.
  unfold lower_image. destruct (c =? CAPITAL_SIGMA).
  - constructor; [|constructor]. unfold lower_stable.
    destruct (lower_sigma db facts) as [Hf Hs].
    destruct (handle_capital_sigma_cases before_rev after) as [-> | ->];
      (split; [assumption | discriminate]).
  - apply Forall_forall. intros d Hd. now apply (lower_fixed db facts c).
Qed.

Lemma image_not_curly (before_rev : str) (c : codepoint) (after : str) :
  not_curly c -> Forall not_curly (lower_image db before_rev c after).
Proof.
  intros [H1 H2]. unfold lower_image. destruct (c =? CAPITAL_SIGMA).
  - constructor; [|constructor].
    destruct (handle_capital_sigma_cases before_rev after) as [-> | ->];
      split; discriminate.
  - apply Forall_forall. intros d Hd. split; intros ->.
    + apply H1. symmetry. apply (lower_quote db facts c _ Hd). now left.
    + apply H2. symmetry. apply (lower_quote db facts c _ Hd). now right.
Qed.

Lemma do_lower_cons (before_rev : str) (c : codepoint) (t : str) :
  do_lower db before_rev (c :: t)
  = lower_image db before_rev c t ++ do_lower db (c :: before_rev) t.
Proof. reflexivity. Qed.

Lemma do_lower_space (before_rev t : str) :
  do_lower db before_rev (SPACE :: t)
  = SPACE :: do_lower db (SPACE :: before_rev) t.
Proof.
  rewrite do_lower_cons. unfold lower_image.
  change (SPACE =? CAPITAL_SIGMA) with false. cbv iota.
  now rewrite (lower_space db facts SPACE eq_refl).
Qed.

Lemma do_lower_words (s : str) :
  words s -> forall before_rev, words (do_lower db before_rev s).
Proof.
  induction 1 as [c Hc | c s Hc _ IH | c s Hc _ IH]; intros before_rev;
    rewrite do_lower_cons; try rewrite do_lower_space.
  - destruct (image_nonspace before_rev c []) as [Hne Hns]; [assumption|].
    apply words_app; auto.
  - destruct (image_nonspace before_rev c s) as [Hne Hns]; [assumption|].
    apply words_app; auto.
  - destruct (image_nonspace before_rev c (SPACE :: s)) as [Hne Hns];
      [assumption|].
    apply words_app; auto. right; right. eauto.
Qed.

Lemma do_lower_stable (s : str) :
  forall before_rev, Forall (lower_stable db) (do_lower db before_rev s).
Proof.
  induction s as [|c s IH]; intros before_rev; [constructor|].
  rewrite do_lower_cons. apply Forall_app. split; [apply image_stable | apply IH].
Qed.

Lemma do_lower_not_curly (s : str) :
  Forall not_curly s ->
  forall before_rev, Forall not_curly (do_lower db before_rev s).
Proof.
  induction 1 as [|c s Hc _ IH]; intros before_rev; [constructor|].
  rewrite do_lower_cons. apply Forall_app.
  split; [now apply image_not_curly | apply IH].
Qed.

(** Lower-casing changes nothing in a string of lower-case-stable
    characters, whatever came before it. *)
Lemma do_lower_id (s : str) :
  Forall (lower_stable db) s -> forall before_rev, do_lower db before_rev s = s.
Proof.
  induction 1 as [|c s [Hc Hne] _ IH]; intros before_rev; [reflexivity|].
  rewrite do_lower_cons. unfold lower_image.
  apply Z.eqb_neq in Hne. rewrite Hne, Hc, IH. reflexivity.
Qed.

(** The shape of a normalized text. *)
Lemma normalize_text_shape (s : str) :
  let u := normalize_text db s in
  (u = [] \/ words u) /\ Forall not_curly u /\ Forall (lower_stable db) u.
Proof.
  unfold normalize_text, lower, re_sub_spaces.
  set (r := replace_char 0x2018 0x27 _).
  assert (Hr : Forall not_curly r).
  { subst r. unfold not_curly. apply Forall_and.
    - now apply replace_char_removes.
    - apply replace_char_Forall; [discriminate|]. now apply replace_char_removes. }
  assert (Hq : Forall not_curly (strip (sub_spaces false r))).
  { apply strip_Forall, sub_spaces_Forall; [split; discriminate | assumption]. }
  split; [|split].
  - destruct (forallb isspace (sub_spaces false r)) eqn:E.
    + left. now rewrite strip_all_space.
    + right. apply do_lower_words.
      apply (strip_tidy_words _ false); [apply sub_spaces_tidy | assumption].
  - now apply do_lower_not_curly.
  - apply do_lower_stable.
Qed.

(** A text of that shape is a fixed point of the normalization. *)
Lemma normalize_text_fixed (u : str) :
  u = [] \/ words u -> Forall not_curly u -> Forall (lower_stable db) u ->
  normalize_text db u = u.
Proof.
  intros Hw Hq Hl. destruct Hw as [-> | Hw]; [reflexivity|].
  assert (Hch := words_chars u Hw).
  unfold normalize_text, lower, re_sub_spaces.
  rewrite (replace_char_id 0xA0), (replace_char_id 0x202F),
    (replace_char_id 0x2019), (replace_char_id 0x2018).
  - rewrite (words_sub_spaces u Hw), (words_strip u Hw).
    now apply do_lower_id.
  - eapply Forall_impl; [|exact Hq]. now intros c [H _].
  - eapply Forall_impl; [|exact Hq]. now intros c [_ H].
  - eapply Forall_impl; [|exact Hch].
    intros c [H | H] E; subst c; [vm_compute in H|]; discriminate.
  - eapply Forall_impl; [|exact Hch].
    intros c [H | H] E; subst c; [vm_compute in H|]; discriminate.
Qed.

(** C7. Text normalization is idempotent: for every string [x],
    [normalize_text (normalize_text x) = normalize_text x].  The Unicode
    character database behind [str.lower] enters through [facts]. *)
Theorem normalize_text_idempotent (x : str) :
  normalize_text db (normalize_text db x) = normalize_text db x.
Proof.
  destruct (normalize_text_shape x) as (Hw & Hq & Hl).
  now apply normalize_text_fixed.
Qed.

End LowerFacts.

(* ================================================================= *)
(** ** The Latin-1 database *)

Ltac bool_to_prop H :=
  repeat first
    [ rewrite orb_true_iff in H | rewrite andb_true_iff in H
    | rewrite negb_true_iff in H | rewrite Z.leb_le in H
    | rewrite Z.eqb_eq in H | rewrite Z.eqb_neq in H ].

(** Case analysis on [to_lower_full latin1_db c], found in the goal or in
    the hypothesis [H]. *)
Ltac split_sigma c :=
  let E := fresh "E" in
  destruct (c =? 931) eqn:E; [apply Z.eqb_eq in E | apply Z.eqb_neq in E].

Ltac lower_cases_goal c :=
  cbn [latin1_db to_lower_full]; unfold CAPITAL_SIGMA, SMALL_SIGMA;
  split_sigma c;
  [ | match goal with
      | |- context [if ?b then _ else _] =>
          let E := fresh "E" in
          destruct b eqn:E;
          [ bool_to_prop E | apply not_true_iff_false in E; bool_to_prop E ]
      end ].

Ltac lower_cases_in c H :=
  cbn [latin1_db to_lower_full] in H; unfold CAPITAL_SIGMA, SMALL_SIGMA in H;
  split_sigma c;
  [ | match type of H with
      | context [if ?b then _ else _] =>
          let E := fresh "E" in
          destruct b eqn:E;
          [ bool_to_prop E | apply not_true_iff_false in E; bool_to_prop E ]
      end ];
  destruct H as [H | []]; symmetry in H.

Lemma isspace_false_intro (d : codepoint) :
  ~ (9 <= d <= 13 \/ 28 <= d <= 32 \/ d = 0x85 \/ d = 0xA0 \/ d = 0x1680
     \/ 0x2000 <= d <= 0x200A \/ d = 0x2028 \/ d = 0x2029 \/ d = 0x202F
     \/ d = 0x205F \/ d = 0x3000) ->
  isspace d = false.
Proof.
  intros H. apply not_true_iff_false. intros E. apply H. clear H.
  unfold isspace in E. bool_to_prop E. lia.
Qed.

Lemma isspace_true_elim (d : codepoint) :
  isspace d = true ->
  9 <= d <= 13 \/ 28 <= d <= 32 \/ d = 0x85 \/ d = 0xA0 \/ d = 0x1680
  \/ 0x2000 <= d <= 0x200A \/ d = 0x2028 \/ d = 0x2029 \/ d = 0x202F
  \/ d = 0x205F \/ d = 0x3000.
Proof. intros E. unfold isspace in E. bool_to_prop E. lia. Qed.

Lemma isspace_false_intro_conv (d : codepoint) :
  isspace d = false ->
  ~ (9 <= d <= 13 \/ 28 <= d <= 32 \/ d = 0x85 \/ d = 0xA0 \/ d = 0x1680
     \/ 0x2000 <= d <= 0x200A \/ d = 0x2028 \/ d = 0x2029 \/ d = 0x202F
     \/ d = 0x205F \/ d = 0x3000).
Proof.
  intros E H. apply not_true_iff_false in E. apply E. clear E.
  unfold isspace.
  repeat rewrite orb_true_iff. repeat rewrite andb_true_iff.
  repeat rewrite Z.leb_le. repeat rewrite Z.eqb_eq. lia.
Qed.

Lemma latin1_facts : UnicodeFacts latin1_db.
Proof.
  constructor.
  - intros c Hc. apply isspace_true_elim in Hc.
    lower_cases_goal c; try reflexivity; exfalso; lia.
  - intros c. lower_cases_goal c; discriminate.
  - intros c d Hc Hd. apply isspace_false_intro. intros Hs.
    assert (Hc' : ~ (9 <= c <= 13 \/ 28 <= c <= 32 \/ c = 0x85 \/ c = 0xA0
                     \/ c = 0x1680 \/ 0x2000 <= c <= 0x200A \/ c = 0x2028
                     \/ c = 0x2029 \/ c = 0x202F \/ c = 0x205F \/ c = 0x3000)).
    { intros H. apply isspace_false_intro_conv in Hc. contradiction. }
    lower_cases_in c Hd; lia.
  - intros c d Hd Hq. lower_cases_in c Hd; lia.
  - intros c d Hd. unfold CAPITAL_SIGMA.
    lower_cases_in c Hd; (split; [|lia]);
      lower_cases_goal d; try reflexivity; exfalso; lia.
  - split; reflexivity.
Qed.

(** Idempotence at a concrete text, on the Latin-1 database. *)
Lemma normalize_text_idempotent_witness :
  normalize_text latin1_db (normalize_text latin1_db doc_none)
  = normalize_text latin1_db doc_none.
Proof. exact (normalize_text_idempotent latin1_db latin1_facts doc_none). Defined.

(* ================================================================= *)
(** ** The classifier *)

Section ClassifierProps.

Variable db : UnicodeDB.
Variable soup_get_text : str -> result str.

(** C1. On a document whose text is extracted as [raw_text],
    [parse_availability] returns Unavailable with the "negative phrase
    matched" reason exactly when the normalized negative phrase is a
    substring of the normalized extracted text, and Available with the
    "negative phrase absent" reason exactly when it is not. *)
Theorem parse_availability_spec (html raw_text : str) :
  soup_get_text html = Ok raw_text ->
  (parse_availability db soup_get_text html = Ok (false, REASON_NEGATIVE)
   <-> substring (normalize_text db NEGATIVE_PHRASE_FULL)
                 (normalize_text db raw_text))
  /\ (parse_availability db soup_get_text html = Ok (true, REASON_ABSENT)
      <-> ~ substring (normalize_text db NEGATIVE_PHRASE_FULL)
                      (normalize_text db raw_text)).
Proof.
  intros Hraw. unfold parse_availability. rewrite Hraw.
  destruct (contains _ _) eqn:E.
  - apply contains_spec in E. split; split; try (intros; assumption || reflexivity).
    + discriminate.
    + intros H. contradiction.
  - assert (N : ~ substring (normalize_text db NEGATIVE_PHRASE_FULL)
                           (normalize_text db raw_text)).
    { intros H. apply contains_spec in H. congruence. }
    split; split; try (intros; assumption || reflexivity).
    + discriminate.
    + intros H. contradiction.
Qed.

End ClassifierProps.

Lemma parse_availability_spec_witness :
  (parse_availability latin1_db plain_get_text doc_none = Ok (false, REASON_NEGATIVE)
   <-> substring (normalize_text latin1_db NEGATIVE_PHRASE_FULL)
                 (normalize_text latin1_db (strip doc_none)))
  /\ (parse_availability latin1_db plain_get_text doc_none = Ok (true, REASON_ABSENT)
      <-> ~ substring (normalize_text latin1_db NEGATIVE_PHRASE_FULL)
                      (normalize_text latin1_db (strip doc_none))).
Proof.
  apply (parse_availability_spec latin1_db plain_get_text doc_none (strip doc_none)).
  reflexivity.
Defined.

Example scenario_A :
  parse_availability latin1_db plain_get_text doc_none = Ok (false, REASON_NEGATIVE).
Proof. vm_compute. reflexivity. Qed.

Example scenario_B :
  parse_availability latin1_db plain_get_text doc_slots = Ok (true, REASON_ABSENT).
Proof. vm_compute. reflexivity. Qed.

(* ================================================================= *)
(** ** Effects of [log], [save_state] and [send_email] *)



Lemma save_state_ok (p : Platform) (o : WriteOutcome) (s : str) (w : World) :
  save_state p o s w = (saved p o s w, Ok tt).
Proof.
  unfold saved, save_state, try_except, write_text, ret.
  destruct o; try destruct (utf8_encodable s); reflexivity.
Qed.

(** [save_state] touches nothing but the state file. *)
Lemma saved_frame (p : Platform) (o : WriteOutcome) (s : str) (w : World) :
  stdout (saved p o s w) = stdout w
  /\ log_file (saved p o s w) = log_file w
  /\ outbox (saved p o s w) = outbox w
  /\ smtp_sessions (saved p o s w) = smtp_sessions w
  /\ slept (saved p o s w) = slept w.
Proof.
  unfold saved, save_state, try_except, write_text, ret.
  destruct o; try destruct (utf8_encodable s); repeat split.
Qed.

Lemma saved_ok (p : Platform) (s : str) (w : World) :
  utf8_encodable s = true ->
  state_file (saved p WriteOk s w) = Present (translate_newlines p s).
Proof.
  intros H. unfold saved, save_state, try_except, write_text. now rewrite H.
Qed.

Section SendEmail.

Variables (env : CycleEnv) (subject body : str) (w : World).






End SendEmail.

(** The delay is floored at 20 seconds, and stays within 45 +/- 25 when the
    jitter is drawn from its interval. *)
Lemma sleep_for_bounds (env : CycleEnv) :
  20 <= sleep_for env
  /\ (- JITTER_SEC <= e_jitter env <= JITTER_SEC -> sleep_for env <= 70).
Proof.
  unfold sleep_for, BASE_POLL_SEC, JITTER_SEC.
  destruct (45 + e_jitter env <? 20) eqn:E.
  - split; lia.
  - apply Z.ltb_ge in E. split; lia.
Qed.

(* ================================================================= *)
(** ** One poll cycle *)

Section MonitorProps.

Variable db : UnicodeDB.
Variable soup_get_text : str -> result str.
Variable rt : Runtime.








End MonitorProps.


(* ================================================================= *)
(** ** Retry *)

Section CycleLaws.

Variable db : UnicodeDB.
Variable soup_get_text : str -> result str.
Variable rt : Runtime.






End CycleLaws.


(* ================================================================= *)
(** ** The state file after [save_state] *)

Lemma saved_state_file (p : Platform) (o : WriteOutcome) (s : str) (w w' : World) :
  state_file w = state_file w' ->
  state_file (saved p o s w) = state_file (saved p o s w').
Proof.
  intros H. unfold saved, save_state, try_except, write_text, ret.
  destruct o; try destruct (utf8_encodable s); cbn; auto.
Qed.

(* ================================================================= *)
(** ** The state file *)

(** C8, as amended.  [save_state] never raises and logs nothing, whatever
    happens to the write.  When the write goes through, the state file holds
    the given fingerprint (its newlines written as [os.linesep]).  The write
    is not atomic: a failure at [open] leaves the old content, a failure
    after it leaves the file truncated to a prefix of the new value (empty
    when the value cannot be encoded). *)
Theorem save_state_spec (p : Platform) (o : WriteOutcome) (s : str) (w : World) :
  exists w',
    save_state p o s w = (w', Ok tt)
    /\ stdout w' = stdout w
    /\ log_file w' = log_file w
    /\ outbox w' = outbox w
    /\ smtp_sessions w' = smtp_sessions w
    /\ state_file w'
       = match o with
         | OpenFails _ => state_file w
         | WriteOk =>
             if utf8_encodable s then Present (translate_newlines p s)
             else Present []
         | WriteFailsAfter n _ =>
             if utf8_encodable s then Present (firstn n (translate_newlines p s))
             else Present []
         end.
Proof.
  unfold save_state, try_except, write_text, ret.
  destruct o; try destruct (utf8_encodable s); eexists; repeat split.
Qed.

(** A write that fails once the file is open (disk full): no exception, no
    log line, and a state file left empty, holding neither the old nor the
    new fingerprint. *)
Lemma save_state_counterexample :
  save_state Posix (WriteFailsAfter 0 disk_full) (lit "98765")
    (world_with_state (lit "111"))
  = (world_with_state [], Ok tt)
  /\ stdout (world_with_state []) = stdout (world_with_state (lit "111"))
  /\ log_file (world_with_state []) = log_file (world_with_state (lit "111"))
  /\ state_file (world_with_state []) = Present [].
Proof. vm_compute. repeat split. Qed.

Lemma translate_newlines_id (p : Platform) (s : str) :
  Forall (fun c => c <> LF) s -> translate_newlines p s = s.
Proof.
  unfold translate_newlines. induction 1 as [|c s Hc _ IH]; simpl; [reflexivity|].
  apply Z.eqb_neq in Hc. now rewrite Hc, IH.
Qed.

(** Reading back what was written gives the text again, unless it holds a
    carriage return. *)
Lemma universal_translate (p : Platform) (s : str) :
  Forall (fun c => c <> CR) s ->
  universal_newlines (translate_newlines p s) = s.
Proof.
  unfold translate_newlines. intros H.
  destruct p; cbn [os_linesep]; induction H as [|c s Hc _ IH];
    try reflexivity; cbn [flat_map];
    (destruct (c =? LF) eqn:E;
     [ apply Z.eqb_eq in E; subst c | apply Z.eqb_neq in Hc ]);
    cbn [app universal_newlines].
  - change (LF =? CR) with false. cbv iota. now rewrite IH.
  - now rewrite Hc, IH.
  - change (CR =? CR) with true. change (LF =? LF) with true. cbv iota.
    now rewrite IH.
  - now rewrite Hc, IH.
Qed.

Lemma load_state_eq (r : ReadOutcome) (w : World) :
  load_state r w
  = (w, Ok match state_file w with
           | Absent => []
           | Present content =>
               match r with
               | ReadOk => strip (universal_newlines content)
               | ReadFails _ => []
               end
           end).
Proof.
  unfold load_state, bind, path_exists, try_except, read_text, ret.
  destruct (state_file w) eqn:E; [reflexivity|]. rewrite E.
  destruct r; reflexivity.
Qed.

(* ================================================================= *)
(** ** The fingerprint *)

(** Within one process the fingerprint is a function of the first 50,000
    characters. *)
Lemma compute_signature_prefix (key : HashSecret) (html1 html2 : str) :
  slice_to 50000 html1 = slice_to 50000 html2 ->
  compute_signature key html1 = compute_signature key html2.
Proof. intros H. unfold compute_signature. now rewrite H. Qed.

Lemma compute_signature_tail (key : HashSecret) (prefix tail1 tail2 : str) :
  List.length prefix = Z.to_nat 50000 ->
  compute_signature key (prefix ++ tail1) = compute_signature key (prefix ++ tail2).
Proof.
  intros H. apply compute_signature_prefix. unfold slice_to.
  rewrite <- H, !firstn_app, !firstn_all, Nat.sub_diag. reflexivity.
Qed.

(** C4.  The fingerprint of one and the same document under the hash
    secrets of two processes: the two differ, so after a restart the
    fingerprint read from the state file matches nothing and the unchanged
    page is notified a second time. *)
Theorem fingerprint_differs_across_restarts :
  compute_signature secret_seed1 doc_slots = lit "6004007021391762145"
  /\ compute_signature secret_seed2 doc_slots = lit "6725100888326227976"
  /\ sent_during world0
       (fst (main latin1_db plain_get_text process1 clock ReadOk
               [env_delivers; env_delivers] world0))
     = 1%nat
  /\ sent_during
       (fst (main latin1_db plain_get_text process1 clock ReadOk
               [env_delivers; env_delivers] world0))
       (fst (main latin1_db plain_get_text process2 clock ReadOk
               [env_delivers]
               (fst (main latin1_db plain_get_text process1 clock ReadOk
                       [env_delivers; env_delivers] world0))))
     = 1%nat.
Proof. vm_compute. repeat split. Qed.

(* ================================================================= *)
(** * Further properties *)

(* ================================================================= *)
(** ** Normalization: whitespace variants and the normal form *)

Lemma replace_char_app (old new : codepoint) (x y : str) :
  replace_char old new (x ++ y) = replace_char old new x ++ replace_char old new y.
Proof. apply map_app. Qed.

Lemma replace_char_isspace (old new : codepoint) (s : str) :
  isspace new = isspace old ->
  forallb isspace (replace_char old new s) = forallb isspace s.
Proof.
  intros H. unfold replace_char. induction s as [|c s IH]; simpl; [reflexivity|].
  rewrite IH. destruct (c =? old) eqn:E; [|reflexivity].
  apply Z.eqb_eq in E. subst c. now rewrite H.
Qed.

Lemma replace_char_nil (old new : codepoint) (s : str) :
  s <> [] -> replace_char old new s <> [].
Proof. destruct s; [congruence | discriminate]. Qed.

Lemma sub_spaces_app (x y : str) :
  forall b,
  sub_spaces b (x ++ y) = sub_spaces b x ++ sub_spaces (ends_in_space b x) y.
Proof.
  unfold ends_in_space.
  induction x as [|c x IH]; intros b; simpl; [reflexivity|].
  destruct (isspace c); [destruct b|]; rewrite IH; reflexivity.
Qed.

(** A run of whitespace collapses to one space (to nothing right after
    whitespace), whatever the run is made of. *)
Lemma sub_spaces_run (ws t : str) :
  ws <> [] -> forallb isspace ws = true ->
  forall b,
  sub_spaces b (ws ++ t) = (if b then [] else [SPACE]) ++ sub_spaces true t.
Proof.
  induction ws as [|c ws IH]; intros Hne Hws b; [congruence|].
  simpl in Hws. apply andb_true_iff in Hws. destruct Hws as [Hc Hws].
  simpl. rewrite Hc. destruct ws as [|d ws].
  - simpl. destruct b; reflexivity.
  - destruct b.
    + now rewrite (IH ltac:(discriminate) Hws true).
    + now rewrite (IH ltac:(discriminate) Hws true).
Qed.

Lemma sub_spaces_isspace (s : str) :
  forall b, forallb isspace (sub_spaces b s) = forallb isspace s.
Proof.
  induction s as [|c s IH]; intros b; simpl; [reflexivity|].
  destruct (isspace c) eqn:E.
  - destruct b; simpl; rewrite ?IH; reflexivity.
  - simpl. now rewrite E.
Qed.

Lemma sub_spaces_run_irrelevant (a ws1 ws2 t : str) (b : bool) :
  ws1 <> [] -> ws2 <> [] ->
  forallb isspace ws1 = true -> forallb isspace ws2 = true ->
  sub_spaces b (a ++ ws1 ++ t) = sub_spaces b (a ++ ws2 ++ t).
Proof.
  intros N1 N2 H1 H2.
  rewrite (sub_spaces_app a (ws1 ++ t)), (sub_spaces_app a (ws2 ++ t)).
  now rewrite (sub_spaces_run ws1 t N1 H1), (sub_spaces_run ws2 t N2 H2).
Qed.

(** X2.  Whitespace variants do not matter: replacing a non-empty run of
    whitespace (spaces, line breaks, non-breaking or typographic spaces) by
    any other non-empty run leaves the normalized text unchanged. *)
Theorem normalize_text_whitespace_insensitive
        (db : UnicodeDB) (a ws1 ws2 b : str) :
  ws1 <> [] -> ws2 <> [] ->
  forallb isspace ws1 = true -> forallb isspace ws2 = true ->
  normalize_text db (a ++ ws1 ++ b) = normalize_text db (a ++ ws2 ++ b).
Proof.
  intros N1 N2 H1 H2. unfold normalize_text, re_sub_spaces, lower.
  repeat rewrite replace_char_app. do 2 f_equal.
  apply sub_spaces_run_irrelevant.
  - repeat apply replace_char_nil. exact N1.
  - repeat apply replace_char_nil. exact N2.
  - repeat (rewrite replace_char_isspace; [|reflexivity]). exact H1.
  - repeat (rewrite replace_char_isspace; [|reflexivity]). exact H2.
Qed.

Lemma normalize_text_whitespace_insensitive_witness :
  normalize_text latin1_db doc_spaced_a = normalize_text latin1_db doc_spaced_b.
Proof.
  apply (normalize_text_whitespace_insensitive latin1_db
           (lit "Aucun") [0xA0; LF; 0x2009] [0x3000] (lit "rendez-vous"));
    try discriminate; reflexivity.
Defined.

Lemma words_no_double_space (s : str) :
  words s -> ~ substring [SPACE; SPACE] s.
Proof.
  intros H [pre [post E]]. revert pre post E.
  induction H as [c Hc | c s Hc Hs IH | c s Hc Hs IH]; intros pre post E.
  - destruct pre as [|x [|y pre]]; discriminate.
  - destruct pre as [|x pre]; simpl in E.
    + injection E as E _. subst c. vm_compute in Hc. discriminate.
    + injection E as _ E. exact (IH pre post E).
  - destruct pre as [|x [|y pre]]; simpl in E.
    + injection E as E _. subst c. vm_compute in Hc. discriminate.
    + injection E as _ E. destruct (words_head s Hs) as (d & t & -> & Hd).
      injection E as E _. subst d. vm_compute in Hd. discriminate.
    + injection E as _ _ E. exact (IH pre post E).
Qed.

(** X1.  The normal form.  In a normalized text every whitespace character
    is a U+0020, no two spaces are adjacent, there is no whitespace at
    either end, and no curly quote is left. *)
Theorem normalize_text_normal_form (db : UnicodeDB) (s : str) :
  UnicodeFacts db ->
  Forall (fun c => isspace c = true -> c = SPACE) (normalize_text db s)
  /\ ~ substring [SPACE; SPACE] (normalize_text db s)
  /\ strip (normalize_text db s) = normalize_text db s
  /\ Forall not_curly (normalize_text db s).
Proof.
  intros facts.
  destruct (normalize_text_shape db facts s) as ([E | Hw] & Hq & _).
  - rewrite E. repeat split; try constructor.
    intros [pre [post H]]. destruct pre; discriminate.
  - split; [|split; [|split]].
    + eapply Forall_impl; [|exact (words_chars _ Hw)].
      intros c [H | H] Hc; [congruence | assumption].
    + now apply words_no_double_space.
    + now apply words_strip.
    + assumption.
Qed.

Lemma normalize_text_normal_form_witness :
  Forall (fun c => isspace c = true -> c = SPACE) (normalize_text latin1_db doc_none)
  /\ ~ substring [SPACE; SPACE] (normalize_text latin1_db doc_none)
  /\ strip (normalize_text latin1_db doc_none) = normalize_text latin1_db doc_none
  /\ Forall not_curly (normalize_text latin1_db doc_none).
Proof. exact (normalize_text_normal_form latin1_db doc_none latin1_facts). Defined.

(** X3.  The empty edge: a text normalizes to the empty string exactly when
    it is empty or made of whitespace only. *)
Theorem normalize_text_blank (db : UnicodeDB) (s : str) :
  UnicodeFacts db ->
  (normalize_text db s = [] <-> forallb isspace s = true).
Proof.
  intros facts. unfold normalize_text, re_sub_spaces, lower.
  set (r := replace_char 0x2018 0x27 _).
  assert (Hr : forallb isspace (sub_spaces false r) = forallb isspace s).
  { rewrite sub_spaces_isspace. subst r.
    now repeat (rewrite replace_char_isspace; [|reflexivity]). }
  split.
  - intros E. rewrite <- Hr.
    destruct (forallb isspace (sub_spaces false r)) eqn:Ea; [reflexivity|].
    exfalso.
    assert (Hw : words (do_lower db [] (strip (sub_spaces false r)))).
    { apply (do_lower_words db facts).
      apply (strip_tidy_words _ false); [apply sub_spaces_tidy | exact Ea]. }
    rewrite E in Hw. inversion Hw.
  - intros Hs. rewrite <- Hr in Hs. now rewrite (strip_all_space _ Hs).
Qed.

Lemma normalize_text_blank_witness :
  normalize_text latin1_db [0xA0; LF; 0x2009] = []
  <-> forallb isspace [0xA0; LF; 0x2009] = true.
Proof. exact (normalize_text_blank latin1_db [0xA0; LF; 0x2009] latin1_facts). Defined.

(* ================================================================= *)
(** ** The classifier on whole pages *)

Lemma words_last (s : str) :
  words s -> exists c t, rev s = c :: t /\ isspace c = false.
Proof.
  induction 1 as [c Hc | c s Hc _ IH | c s Hc _ IH].
  - exists c, []. now split.
  - destruct IH as (d & t & E & Hd). exists d, (t ++ [c]).
    simpl. rewrite E. now split.
  - destruct IH as (d & t & E & Hd). exists d, (t ++ [SPACE; c]).
    simpl. rewrite E, <- app_assoc. now split.
Qed.

(** Words keep their place through [re.sub]: what comes before only
    decides how many spaces precede them. *)
Lemma words_sub_spaces_app (core : str) :
  words core ->
  forall b y, sub_spaces b (core ++ y) = core ++ sub_spaces false y.
Proof.
  induction 1 as [c Hc | c s Hc _ IH | c s Hc _ IH]; intros b y; simpl; rewrite Hc.
  - reflexivity.
  - now rewrite IH.
  - change (isspace SPACE) with true. cbv iota. now rewrite IH.
Qed.

Lemma lstrip_around (core : str) :
  words core ->
  forall p q, exists p', lstrip (p ++ core ++ q) = p' ++ core ++ q.
Proof.
  intros H p q. rewrite lstrip_app. destruct (forallb isspace p).
  - exists []. destruct (words_head core H) as (c & t & -> & Hc).
    simpl. now rewrite Hc.
  - now exists (lstrip p).
Qed.

Lemma rstrip_around (core : str) :
  words core ->
  forall p q, exists q', rstrip (p ++ core ++ q) = p ++ core ++ q'.
Proof.
  intros H p q. unfold rstrip. rewrite !rev_app_distr, <- app_assoc, lstrip_app.
  destruct (forallb isspace (rev q)).
  - exists []. destruct (words_last core H) as (c & t & E & Hc).
    rewrite E. simpl. rewrite Hc.
    change (c :: t ++ rev p) with ((c :: t) ++ rev p). rewrite <- E.
    now rewrite rev_app_distr, !rev_involutive, app_nil_r.
  - exists (rev (lstrip (rev q))).
    now rewrite !rev_app_distr, !rev_involutive, <- app_assoc.
Qed.

Lemma strip_around (core : str) :
  words core ->
  forall p q, exists p' q', strip (p ++ core ++ q) = p' ++ core ++ q'.
Proof.
  intros H p q. unfold strip.
  destruct (lstrip_around core H p q) as (p' & ->).
  destruct (rstrip_around core H p' q) as (q' & ->). eauto.
Qed.

Section LowerInContext.

Variable db : UnicodeDB.

Lemma do_lower_app (x y : str) :
  forall before_rev,
  exists px,
    do_lower db before_rev (x ++ y)
    = px ++ do_lower db (rev x ++ before_rev) y.
Proof.
  induction x as [|c x IH]; intros before_rev.
  - now exists [].
  - destruct (IH (c :: before_rev)) as (px & E).
    exists (lower_image db before_rev c (x ++ y) ++ px).
    simpl. rewrite E, <- !app_assoc. reflexivity.
Qed.

(** Away from capital sigmas lower-casing works character by character. *)
Lemma do_lower_plain (core : str) :
  Forall (fun c => c <> CAPITAL_SIGMA) core ->
  forall before_rev z,
  do_lower db before_rev (core ++ z)
  = flat_map (to_lower_full db) core ++ do_lower db (rev core ++ before_rev) z.
Proof.
  induction 1 as [|c core Hc _ IH]; intros before_rev z; [reflexivity|].
  simpl. unfold lower_image at 1. apply Z.eqb_neq in Hc. rewrite Hc, IH.
  now rewrite <- !app_assoc.
Qed.

(** A run of words without curly quotes or capital sigma that stands in a
    text is found, lower-cased, in the normalized text. *)
Lemma normalize_text_keeps_core (core : str) :
  words core -> Forall not_curly core ->
  Forall (fun c => c <> CAPITAL_SIGMA) core ->
  forall pre post,
  substring (flat_map (to_lower_full db) core)
            (normalize_text db (pre ++ core ++ post)).
Proof.
  intros Hw Hq Hs pre post.
  assert (Hch := words_chars core Hw).
  unfold normalize_text, re_sub_spaces, lower.
  repeat rewrite replace_char_app.
  rewrite (replace_char_id 0xA0 SPACE core), (replace_char_id 0x202F SPACE core),
    (replace_char_id 0x2019 0x27 core), (replace_char_id 0x2018 0x27 core).
  - rewrite sub_spaces_app, (words_sub_spaces_app core Hw).
    match goal with
    | |- context [strip (?p ++ core ++ ?q)] =>
        destruct (strip_around core Hw p q) as (p' & q' & ->)
    end.
    destruct (do_lower_app p' (core ++ q') []) as (px & ->).
    rewrite (do_lower_plain core Hs). eexists px, _. reflexivity.
  - eapply Forall_impl; [|exact Hq]. now intros c [H _].
  - eapply Forall_impl; [|exact Hq]. now intros c [_ H].
  - eapply Forall_impl; [|exact Hch].
    intros c [H | H] E; subst c; [vm_compute in H|]; discriminate.
  - eapply Forall_impl; [|exact Hch].
    intros c [H | H] E; subst c; [vm_compute in H|]; discriminate.
Qed.

Lemma NEGATIVE_PHRASE_FULL_core :
  words (tl NEGATIVE_PHRASE_FULL)
  /\ Forall not_curly (tl NEGATIVE_PHRASE_FULL)
  /\ Forall (fun c => c <> CAPITAL_SIGMA) (tl NEGATIVE_PHRASE_FULL)
  /\ normalize_text db NEGATIVE_PHRASE_FULL
     = flat_map (to_lower_full db) (tl NEGATIVE_PHRASE_FULL).
Proof.
  assert (Hw : words (tl NEGATIVE_PHRASE_FULL)).
  { change (tl NEGATIVE_PHRASE_FULL)
      with (strip (sub_spaces false NEGATIVE_PHRASE_FULL)).
    apply (strip_tidy_words _ false); [apply sub_spaces_tidy | reflexivity]. }
  assert (Hs : Forall (fun c => c <> CAPITAL_SIGMA) (tl NEGATIVE_PHRASE_FULL)).
  { apply Forall_forall. intros c Hc.
    assert (F : forallb (fun c => negb (c =? CAPITAL_SIGMA))
                  (tl NEGATIVE_PHRASE_FULL) = true) by reflexivity.
    rewrite forallb_forall in F. specialize (F c Hc).
    apply negb_true_iff in F. now apply Z.eqb_neq. }
  split; [exact Hw|]. split; [|split; [exact Hs|]].
  - apply Forall_forall. intros c Hc.
    assert (F : forallb (fun c => negb (c =? 0x2018) && negb (c =? 0x2019))
                  (tl NEGATIVE_PHRASE_FULL) = true) by reflexivity.
    rewrite forallb_forall in F. specialize (F c Hc).
    apply andb_true_iff in F. destruct F as [F1 F2].
    apply negb_true_iff in F1, F2. split; now apply Z.eqb_neq.
  - unfold normalize_text, lower.
    change (strip (re_sub_spaces
                     (replace_char 0x2018 0x27
                        (replace_char 0x2019 0x27
                           (replace_char 0x202F SPACE
                              (replace_char 0xA0 SPACE NEGATIVE_PHRASE_FULL))))))
      with (tl NEGATIVE_PHRASE_FULL).
    rewrite <- (app_nil_r (tl NEGATIVE_PHRASE_FULL)) at 1.
    rewrite (do_lower_plain _ Hs). simpl. now rewrite app_nil_r.
Qed.

End LowerInContext.

Lemma normalize_text_all_space (db : UnicodeDB) (s : str) :
  forallb isspace s = true -> normalize_text db s = [].
Proof.
  intros H. unfold normalize_text, re_sub_spaces, lower.
  rewrite strip_all_space; [reflexivity|].
  rewrite sub_spaces_isspace.
  now repeat (rewrite replace_char_isspace; [|reflexivity]).
Qed.

Section WholePages.

Variable db : UnicodeDB.
Variable soup_get_text : str -> result str.

(** X4.  A page whose text contains the official sentence verbatim, with
    anything before and after it, is classified Unavailable. *)
Theorem negative_phrase_detected (html pre post : str) :
  soup_get_text html = Ok (pre ++ NEGATIVE_PHRASE_FULL ++ post) ->
  parse_availability db soup_get_text html = Ok (false, REASON_NEGATIVE).
Proof.
  intros H. unfold parse_availability. rewrite H.
  destruct (NEGATIVE_PHRASE_FULL_core db) as (Hw & Hq & Hs & ->).
  assert (S : substring (flat_map (to_lower_full db) (tl NEGATIVE_PHRASE_FULL))
                (normalize_text db (pre ++ NEGATIVE_PHRASE_FULL ++ post))).
  { change NEGATIVE_PHRASE_FULL with ([SPACE] ++ tl NEGATIVE_PHRASE_FULL) at 2.
    rewrite <- app_assoc, app_assoc.
    now apply normalize_text_keeps_core. }
  apply contains_spec in S. now rewrite S.
Qed.

(** X5.  A page with no text at all, or with whitespace only, is classified
    Available: the absence of the sentence is all the classifier looks at. *)
Theorem blank_page_is_available (html raw_text : str) :
  UnicodeFacts db ->
  soup_get_text html = Ok raw_text ->
  forallb isspace raw_text = true ->
  parse_availability db soup_get_text html = Ok (true, REASON_ABSENT).
Proof.
  intros facts H Hb. unfold parse_availability.
  rewrite H, (normalize_text_all_space db raw_text Hb).
  destruct (NEGATIVE_PHRASE_FULL_core db) as (_ & _ & _ & ->).
  change (tl NEGATIVE_PHRASE_FULL)
    with (0x41 :: tl (tl NEGATIVE_PHRASE_FULL)).
  cbn [flat_map].
  destruct (to_lower_full db 0x41) as [|d l] eqn:E.
  - now apply (lower_nonempty db facts) in E.
  - reflexivity.
Qed.

End WholePages.

Lemma negative_phrase_detected_witness :
  parse_availability latin1_db plain_get_text doc_banner
  = Ok (false, REASON_NEGATIVE).
Proof.
  apply (negative_phrase_detected latin1_db plain_get_text doc_banner
           (lit "Mairie de Paris  -") (lit "  Mentions")).
  reflexivity.
Defined.

Lemma blank_page_is_available_witness :
  parse_availability latin1_db plain_get_text [SPACE; LF] = Ok (true, REASON_ABSENT).
Proof.
  apply (blank_page_is_available latin1_db plain_get_text [SPACE; LF] []).
  - exact latin1_facts.
  - reflexivity.
  - reflexivity.
Defined.

(* ================================================================= *)
(** ** What [send_email] does *)



(* ================================================================= *)
(** ** What a cycle does, and when *)

(** X16.  With the jitter drawn from its interval the floor of 20 seconds
    never applies: the delay is 45 seconds plus the jitter, between 20 and
    70 seconds. *)
Theorem sleep_for_range (env : CycleEnv) :
  - JITTER_SEC <= e_jitter env <= JITTER_SEC ->
  sleep_for env = BASE_POLL_SEC + e_jitter env /\ 20 <= sleep_for env <= 70.
Proof.
  unfold sleep_for, BASE_POLL_SEC, JITTER_SEC. intros H.
  destruct (45 + e_jitter env <? 20) eqn:E.
  - apply Z.ltb_lt in E. lia.
  - lia.
Qed.

Lemma sleep_for_range_witness :
  sleep_for env_timeout = BASE_POLL_SEC + e_jitter env_timeout
  /\ 20 <= sleep_for env_timeout <= 70.
Proof. apply (sleep_for_range env_timeout). vm_compute. split; discriminate. Defined.

Section CycleOutcome.

Variable db : UnicodeDB.
Variable soup_get_text : str -> result str.
Variable rt : Runtime.

Lemma parse_availability_detail (html detail : str) :
  parse_availability db soup_get_text html = Ok (true, detail) ->
  detail = REASON_ABSENT.
Proof.
  unfold parse_availability. destruct (soup_get_text html); [|discriminate].
  destruct (contains _ _); intros H; now injection H.
Qed.



End CycleOutcome.

(* ================================================================= *)
(** ** The fingerprint as a string *)

Lemma bytes_of_string_cons (a : ascii) (s : string) :
  bytes_of_string (String a s) = Z.of_N (N_of_ascii a) :: bytes_of_string s.
Proof. reflexivity. Qed.

Lemma string_of_uint_digits (u : Decimal.uint) :
  Forall is_ascii_digit (bytes_of_string (NilEmpty.string_of_uint u)).
Proof.
  induction u; cbn [NilEmpty.string_of_uint];
    try (rewrite bytes_of_string_cons; constructor; [|assumption];
         unfold is_ascii_digit; cbn; lia).
  constructor.
Qed.

Lemma str_of_int_shape (n : Z) :
  exists sign digits,
    str_of_int n = sign ++ digits
    /\ (sign = [] \/ sign = [45])
    /\ digits <> []
    /\ Forall is_ascii_digit digits.
Proof.
  assert (U : forall u, u <> Decimal.Nil ->
                        bytes_of_string (NilZero.string_of_uint u) <> []
                        /\ Forall is_ascii_digit
                             (bytes_of_string (NilZero.string_of_uint u))).
  { intros u Hu. split.
    - destruct u; try congruence; discriminate.
    - replace (NilZero.string_of_uint u) with (NilEmpty.string_of_uint u)
        by (destruct u; congruence || reflexivity).
      apply string_of_uint_digits. }
  unfold str_of_int. destruct n as [|p|p]; cbn [Z.to_int NilZero.string_of_int].
  - exists [], [48]. repeat split; auto; try discriminate.
    repeat constructor; unfold is_ascii_digit; lia.
  - destruct (U (Pos.to_uint p) (DecimalPos.Unsigned.to_uint_nonnil p)) as [H1 H2].
    exists [], (bytes_of_string (NilZero.string_of_uint (Pos.to_uint p))). auto.
  - destruct (U (Pos.to_uint p) (DecimalPos.Unsigned.to_uint_nonnil p)) as [H1 H2].
    exists [45], (bytes_of_string (NilZero.string_of_uint (Pos.to_uint p))).
    rewrite bytes_of_string_cons. auto.
Qed.

Lemma str_of_int_chars (n : Z) :
  str_of_int n <> [] /\ Forall is_int_char (str_of_int n).
Proof.
  destruct (str_of_int_shape n) as (sign & digits & -> & Hs & Hne & Hd). split.
  - destruct sign; [simpl; assumption | discriminate].
  - apply Forall_app. split.
    + destruct Hs as [-> | ->]; repeat constructor.
    + eapply Forall_impl; [|exact Hd]. intros c H. now right.
Qed.

Lemma int_char_plain (c : codepoint) :
  is_int_char c ->
  isspace c = false /\ c <> CR /\ c <> LF /\ is_surrogate c = false.
Proof.
  unfold is_int_char, is_ascii_digit, CR, LF. intros H. split; [|split; [|split]].
  - apply isspace_false_intro. lia.
  - lia.
  - lia.
  - unfold is_surrogate. apply andb_false_iff. left. apply Z.leb_gt. lia.
Qed.

Lemma strip_no_space (s : str) :
  Forall (fun c => isspace c = false) s -> strip s = s.
Proof.
  intros H.
  assert (L : forall x, Forall (fun c => isspace c = false) x -> lstrip x = x).
  { intros x Hx. destruct Hx as [|c x Hc _]; [reflexivity|]. simpl. now rewrite Hc. }
  unfold strip, rstrip. rewrite (L s H), (L (rev s)); [apply rev_involutive|].
  now apply Forall_rev.
Qed.

Lemma str_of_int_inj (n m : Z) : str_of_int n = str_of_int m -> n = m.
Proof.
  unfold str_of_int, bytes_of_string. intros H.
  apply DecimalZ.to_int_inj.
  assert (S : NilZero.string_of_int (Z.to_int n) = NilZero.string_of_int (Z.to_int m)).
  { rewrite <- (string_of_list_ascii_of_string (NilZero.string_of_int (Z.to_int n))).
    rewrite <- (string_of_list_ascii_of_string (NilZero.string_of_int (Z.to_int m))).
    f_equal. revert H. generalize (list_ascii_of_string (NilZero.string_of_int (Z.to_int n))).
    generalize (list_ascii_of_string (NilZero.string_of_int (Z.to_int m))).
    intros l2 l1. revert l2. induction l1 as [|a l1 IH]; intros [|b l2] H; simpl in H;
      try discriminate; [reflexivity|].
    injection H as Hab Hl. f_equal; [|now apply IH].
    apply N2Z.inj in Hab.
    rewrite <- (ascii_N_embedding a), <- (ascii_N_embedding b). now rewrite Hab. }
  assert (G : forall k, Z.to_int k <> Decimal.Pos Decimal.Nil
                        /\ Z.to_int k <> Decimal.Neg Decimal.Nil).
  { intros [|p|p]; simpl; split; try discriminate; intros E; injection E as E;
      now apply (DecimalPos.Unsigned.to_uint_nonnil p). }
  assert (I : Some (Z.to_int n) = Some (Z.to_int m)).
  { rewrite <- (NilZero.isi (Z.to_int n)), <- (NilZero.isi (Z.to_int m));
      try apply G. now rewrite S. }
  now injection I.
Qed.

(** X10.  Comparing two fingerprints is comparing the two hash values: the
    decimal rendering [str(...)] loses nothing. *)
Theorem signature_comparison (key : HashSecret) (html1 html2 : str) :
  str_eqb (compute_signature key html1) (compute_signature key html2)
  = (py_hash key (slice_to 50000 html1) =? py_hash key (slice_to 50000 html2)).
Proof.
  unfold compute_signature. destruct (Z.eqb_spec
    (py_hash key (slice_to 50000 html1)) (py_hash key (slice_to 50000 html2)))
    as [E | N].
  - rewrite E. apply str_eqb_refl.
  - apply str_eqb_neq. intros H. apply N. now apply str_of_int_inj.
Qed.

Lemma signature_plain (key : HashSecret) (html : str) (p : Platform) :
  compute_signature key html <> []
  /\ strip (compute_signature key html) = compute_signature key html
  /\ utf8_encodable (compute_signature key html) = true
  /\ translate_newlines p (compute_signature key html) = compute_signature key html
  /\ universal_newlines (compute_signature key html) = compute_signature key html.
Proof.
  unfold compute_signature.
  destruct (str_of_int_chars (py_hash key (slice_to 50000 html))) as [Hne Hc].
  set (sig := str_of_int _) in *.
  assert (P : Forall (fun c => isspace c = false /\ c <> CR /\ c <> LF
                               /\ is_surrogate c = false) sig).
  { eapply Forall_impl; [|exact Hc]. apply int_char_plain. }
  assert (T : translate_newlines p sig = sig).
  { apply translate_newlines_id. eapply Forall_impl; [|exact P]. now intros c (? & ? & ? & ?). }
  split; [exact Hne|]. split; [|split; [|split; [exact T|]]].
  - apply strip_no_space. eapply Forall_impl; [|exact P]. now intros c (? & ? & ? & ?).
  - unfold utf8_encodable. apply forallb_forall. intros c Hin.
    rewrite Forall_forall in P. destruct (P c Hin) as (_ & _ & _ & ->). reflexivity.
  - rewrite <- T at 1. apply universal_translate.
    eapply Forall_impl; [|exact P]. now intros c (? & ? & ? & ?).
Qed.

(** X11.  A fingerprint that [save_state] writes is stored as it is, on
    either platform, and [load_state] reads it back unchanged. *)
Theorem signature_survives_state_file
        (key : HashSecret) (html : str) (p : Platform) (w : World) :
  state_file (saved p WriteOk (compute_signature key html) w)
  = Present (compute_signature key html)
  /\ load_state ReadOk (saved p WriteOk (compute_signature key html) w)
     = (saved p WriteOk (compute_signature key html) w,
        Ok (compute_signature key html)).
Proof.
  destruct (signature_plain key html p) as (_ & Hs & He & Ht & Hu).
  assert (F : state_file (saved p WriteOk (compute_signature key html) w)
              = Present (compute_signature key html)).
  { rewrite (saved_ok p _ w He). now rewrite Ht. }
  split; [exact F|]. rewrite load_state_eq, F, Hu, Hs. reflexivity.
Qed.

(* ================================================================= *)
(** ** Whole runs *)

Section WholeRuns.

Variable db : UnicodeDB.
Variable soup_get_text : str -> result str.
Variable rt : Runtime.




End WholeRuns.




(* ================================================================= *)
(** ** A write that fails *)

Section Failures.

Variable db : UnicodeDB.
Variable soup_get_text : str -> result str.
Variable rt : Runtime.


End Failures.


(* ================================================================= *)
(** ** Typographic quotes *)

Lemma replace_char_comm (o1 n1 o2 n2 : codepoint) (s : str) :
  o1 <> o2 -> n1 <> o2 -> n2 <> o1 ->
  replace_char o1 n1 (replace_char o2 n2 s)
  = replace_char o2 n2 (replace_char o1 n1 s).
Proof.
  intros H1 H2 H3. unfold replace_char. rewrite !map_map. apply map_ext.
  intros c.
  destruct (Z.eqb_spec c o2); destruct (Z.eqb_spec c o1); subst;
    repeat match goal with
           | |- context [?a =? ?b] => destruct (Z.eqb_spec a b)
           end; congruence.
Qed.

(** X19.  Typographic quotes do not matter: two texts that differ only in
    showing U+2018 or U+2019 where the other shows an apostrophe have the
    same normalized text. *)
Theorem normalize_text_quote_insensitive (db : UnicodeDB) (s1 s2 : str) :
  replace_char 0x2018 0x27 (replace_char 0x2019 0x27 s1)
  = replace_char 0x2018 0x27 (replace_char 0x2019 0x27 s2) ->
  normalize_text db s1 = normalize_text db s2.
Proof.
  intros H.
  assert (M : forall s,
             replace_char 0x2018 0x27
               (replace_char 0x2019 0x27
                  (replace_char 0x202F SPACE (replace_char 0xA0 SPACE s)))
             = replace_char 0x202F SPACE
                 (replace_char 0xA0 SPACE
                    (replace_char 0x2018 0x27 (replace_char 0x2019 0x27 s)))).
  { intros s.
    rewrite (replace_char_comm 0x2019 0x27 0x202F SPACE) by discriminate.
    rewrite (replace_char_comm 0x2019 0x27 0xA0 SPACE) by discriminate.
    rewrite (replace_char_comm 0x2018 0x27 0x202F SPACE) by discriminate.
    rewrite (replace_char_comm 0x2018 0x27 0xA0 SPACE) by discriminate.
    reflexivity. }
  unfold normalize_text. now rewrite !M, H.
Qed.

Lemma normalize_text_quote_insensitive_witness :
  normalize_text latin1_db (lit "Aujourd’hui, n‘est") 
  = normalize_text latin1_db (lit "Aujourd'hui, n'est").
Proof.
  apply (normalize_text_quote_insensitive latin1_db). vm_compute. reflexivity.
Defined.

(* ================================================================= *)
(** ** A state file written by hand *)

Lemma lstrip_no_space (x : str) :
  Forall (fun c => isspace c = false) x -> lstrip x = x.
Proof.
  intros Hx. destruct Hx as [|c x Hc _]; [reflexivity|]. simpl. now rewrite Hc.
Qed.

Lemma strip_padding (pad1 s pad2 : str) :
  forallb isspace pad1 = true -> forallb isspace pad2 = true ->
  Forall (fun c => isspace c = false) s ->
  strip (pad1 ++ s ++ pad2) = s.
Proof.
  intros H1 H2 Hs. unfold strip, rstrip.
  rewrite lstrip_app, H1, lstrip_app.
  destruct (forallb isspace s) eqn:Es.
  - destruct Hs as [|c s Hc _]; [|simpl in Es; rewrite Hc in Es; discriminate].
    now rewrite (lstrip_all_space pad2 H2).
  - rewrite (lstrip_no_space s Hs), rev_app_distr, lstrip_app, forallb_rev, H2.
    rewrite lstrip_no_space; [apply rev_involutive | now apply Forall_rev].
Qed.

Lemma universal_newlines_plain (s y : str) :
  Forall (fun c => c <> CR) s ->
  universal_newlines (s ++ y) = s ++ universal_newlines y.
Proof.
  induction 1 as [|c s Hc _ IH]; [reflexivity|].
  cbn [app universal_newlines]. apply Z.eqb_neq in Hc. now rewrite Hc, IH.
Qed.

Lemma universal_newlines_cons (a : codepoint) (t : str) :
  universal_newlines (a :: t)
  = if a =? CR then
      LF :: match t with
            | d :: t' =>
                if d =? LF then universal_newlines t' else universal_newlines t
            | [] => []
            end
    else a :: universal_newlines t.
Proof. reflexivity. Qed.

Lemma universal_newlines_app (c : codepoint) (y : str) :
  c <> LF ->
  forall n x, (List.length x <= n)%nat ->
  universal_newlines (x ++ c :: y)
  = universal_newlines x ++ universal_newlines (c :: y).
Proof.
  intros Hc. induction n as [|n IH]; intros x Hn.
  - destruct x; [reflexivity | simpl in Hn; lia].
  - destruct x as [|a x]; [reflexivity|]. simpl in Hn.
    change ((a :: x) ++ c :: y) with (a :: (x ++ c :: y)).
    rewrite (universal_newlines_cons a (x ++ c :: y)), (universal_newlines_cons a x).
    destruct (a =? CR).
    + destruct x as [|d x].
      * change ([] ++ c :: y) with (c :: y). cbv iota.
        apply Z.eqb_neq in Hc. now rewrite Hc.
      * change ((d :: x) ++ c :: y) with (d :: (x ++ c :: y)). cbv iota.
        simpl in Hn. destruct (d =? LF).
        -- rewrite (IH x) by lia. reflexivity.
        -- change (d :: (x ++ c :: y)) with ((d :: x) ++ c :: y).
           rewrite (IH (d :: x)) by (simpl; lia). reflexivity.
    + rewrite (IH x) by lia. reflexivity.
Qed.

Lemma universal_newlines_space (n : nat) :
  forall x, (List.length x <= n)%nat ->
  forallb isspace x = true -> forallb isspace (universal_newlines x) = true.
Proof.
  induction n as [|n IH]; intros x Hn Hx.
  - destruct x; [reflexivity | simpl in Hn; lia].
  - destruct x as [|a x]; [reflexivity|]. simpl in Hn.
    assert (Hx' := Hx). cbn [forallb] in Hx.
    apply andb_true_iff in Hx. destruct Hx as [Ha Hx].
    rewrite universal_newlines_cons. destruct (a =? CR).
    + cbn [forallb]. change (isspace LF) with true. cbn [andb].
      destruct x as [|d x]; [reflexivity|]. simpl in Hn.
      destruct (d =? LF).
      * cbn [forallb] in Hx. apply andb_true_iff in Hx. apply IH; [lia | tauto].
      * apply IH; [simpl; lia | exact Hx].
    + cbn [forallb]. rewrite Ha. apply IH; [lia | exact Hx].
Qed.

(** X20.  [load_state] forgives padding: a state file in which the stored
    value stands between spaces, tabs or line ends of any kind (a trailing
    "\n" or "\r\n", say) is read as the bare value. *)
Theorem load_state_strips_padding (pad1 s pad2 : str) (w : World) :
  forallb isspace pad1 = true ->
  forallb isspace pad2 = true ->
  Forall (fun c => isspace c = false) s ->
  state_file w = Present (pad1 ++ s ++ pad2) ->
  load_state ReadOk w = (w, Ok s).
Proof.
  intros H1 H2 Hs Hw. rewrite load_state_eq, Hw. do 2 f_equal.
  assert (Hcr : Forall (fun c => c <> CR) s).
  { eapply Forall_impl; [|exact Hs]. intros c Hc E. subst c. discriminate. }
  destruct s as [|c s'].
  - cbn [app]. apply strip_all_space.
    apply (universal_newlines_space (List.length (pad1 ++ pad2))); [lia|].
    now rewrite forallb_app, H1, H2.
  - assert (Hc : c <> LF).
    { inversion Hs as [|? ? Hc _]; subst. intros E. subst c. discriminate. }
    cbn [app]. rewrite (universal_newlines_app c (s' ++ pad2) Hc _ pad1 (le_n _)).
    change (c :: s' ++ pad2) with ((c :: s') ++ pad2).
    rewrite (universal_newlines_plain (c :: s') pad2 Hcr).
    apply strip_padding; [| |exact Hs].
    + now apply (universal_newlines_space (List.length pad1)).
    + now apply (universal_newlines_space (List.length pad2)).
Qed.

Lemma load_state_strips_padding_witness :
  load_state ReadOk (world_with_state (lit "6004007021391762145" ++ [CR; LF]))
  = (world_with_state (lit "6004007021391762145" ++ [CR; LF]),
     Ok (lit "6004007021391762145")).
Proof.
  apply (load_state_strips_padding [] (lit "6004007021391762145") [CR; LF]).
  - reflexivity.
  - reflexivity.
  - vm_compute. repeat constructor.
  - reflexivity.
Defined.

(* ================================================================= *)
(** * The monitor when the terminal, the directory and the server fail *)

(** ** [log], [load_state] and [send_email] *)

(** [log] raises exactly when [print] does, before it has changed
    anything. *)
Lemma log_at_print (le : Faults.LogEnv) (msg : str) (w : World) :
  Faults.log le msg w
  = match Faults.stdout_error le (Faults.stamped le msg) with
    | None => (Faults.logged le msg w, Ok tt)
    | Some e => (w, Raise e)
    end.
Proof.
  unfold Faults.log, Faults.logged, Faults.stamped, bind, Faults.print,
    try_except, Faults.log_file_append, ret.
  destruct (Faults.stdout_error le _); [reflexivity|].
  destruct (Faults.log_file_error le); reflexivity.
Qed.

Lemma log_accepted (le : Faults.LogEnv) (msg : str) (w : World) :
  Faults.accepts le msg = true ->
  Faults.log le msg w = (Faults.logged le msg w, Ok tt).
Proof.
  unfold Faults.accepts. intros H. rewrite log_at_print.
  now destruct (Faults.stdout_error le _).
Qed.

(** A [log] that returned has printed its line and touched nothing but the
    two logs. *)
Lemma logged_keeps (le : Faults.LogEnv) (msg : str) (w : World) :
  state_file (Faults.logged le msg w) = state_file w
  /\ outbox (Faults.logged le msg w) = outbox w
  /\ smtp_sessions (Faults.logged le msg w) = smtp_sessions w
  /\ slept (Faults.logged le msg w) = slept w
  /\ stdout (Faults.logged le msg w) = stdout w ++ [Faults.stamped le msg].
Proof.
  unfold Faults.logged. destruct (Faults.log_file_error le); repeat split.
Qed.

Lemma logged_one_line (le : Faults.LogEnv) (msg : str) (w : World) :
  List.length (stdout (Faults.logged le msg w)) = S (List.length (stdout w)).
Proof.
  destruct (logged_keeps le msg w) as (_ & _ & _ & _ & ->).
  rewrite length_app. simpl. apply Nat.add_1_r.
Qed.

Lemma load_state_answered (r : ReadOutcome) (w : World) :
  Faults.load_state Faults.ExistsAnswers r w
  = (w, Ok match state_file w with
           | Absent => []
           | Present content =>
               match r with
               | ReadOk => strip (universal_newlines content)
               | ReadFails _ => []
               end
           end).
Proof.
  unfold Faults.load_state, bind, Faults.path_exists, try_except, read_text, ret.
  destruct (state_file w) eqn:E; [reflexivity|]. rewrite E.
  destruct r; reflexivity.
Qed.

(** [send_email], step by step. *)
Lemma send_email_steps (env : Faults.CycleEnv) (subject body : str) (w : World) :
  Faults.send_email env subject body w
  = match getenv_port (SMTP_PORT (Faults.e_environ env)) with
    | Raise e => (w, Raise e)
    | Ok port =>
        if all_set (SMTP_HOST (Faults.e_environ env)) port
             (SMTP_USER (Faults.e_environ env)) (SMTP_PASS (Faults.e_environ env))
             (EMAIL_TO (Faults.e_environ env))
        then
          if utf8_encodable body then
            match Faults.e_tls env with
            | Some e => (w, Raise e)
            | None =>
                match Faults.e_smtp env with
                | Faults.Delivered =>
                    Faults.log (Faults.e_log env) MSG_EMAIL_SENT
                      (add_outbox
                         (alert_mail (Faults.e_environ env) port subject body)
                         (add_smtp_session w))
                | Faults.SmtpRaises e => (add_smtp_session w, Raise e)
                | Faults.RaisesAfterDelivery e =>
                    (add_outbox
                       (alert_mail (Faults.e_environ env) port subject body)
                       (add_smtp_session w),
                     Raise e)
                end
            end
          else (w, Raise {| exc_kind := UnicodeEncodeError; exc_msg := MSG_ENCODE |})
        else Faults.log (Faults.e_log env) MSG_CONFIG_INCOMPLETE w
    end.
Proof.
  unfold Faults.send_email, bind, lift, Faults.MIMEText,
    Faults.create_default_context, Faults.smtp_send.
  destruct (getenv_port _) as [port|e]; [|reflexivity].
  destruct (all_set _ _ _ _ _); [|reflexivity]. cbn [negb].
  destruct (utf8_encodable body); [|reflexivity].
  destruct (Faults.e_tls env); [reflexivity|].
  destruct (Faults.e_smtp env); reflexivity.
Qed.

Lemma notifier_ready_port (environ : SmtpEnv) :
  notifier_ready environ = true ->
  getenv_port (SMTP_PORT environ) = Ok (port_of environ)
  /\ all_set (SMTP_HOST environ) (port_of environ) (SMTP_USER environ)
       (SMTP_PASS environ) (EMAIL_TO environ) = true.
Proof.
  unfold notifier_ready, port_of.
  destruct (getenv_port (SMTP_PORT environ)); [auto | discriminate].
Qed.

Lemma alert_body_encodable (detail : str) :
  utf8_encodable detail = true -> utf8_encodable (alert_body detail) = true.
Proof.
  intros H. unfold alert_body, utf8_encodable in *.
  rewrite !forallb_app, H. reflexivity.
Qed.

Lemma REASON_ABSENT_encodable : utf8_encodable (alert_body REASON_ABSENT) = true.
Proof. apply alert_body_encodable. reflexivity. Qed.

(** Everything [send_email] does, by the environment. *)
Lemma send_email_run (env : Faults.CycleEnv) (subject body : str) (w : World) :
  exists w' r,
    Faults.send_email env subject body w = (w', r)
    /\ state_file w' = state_file w
    /\ slept w' = slept w
    /\ smtp_sessions w'
       = (if Faults.reaches_server env body
          then S (smtp_sessions w) else smtp_sessions w)
    /\ outbox w'
       = (if Faults.hands_over env body
          then outbox w
               ++ [alert_mail (Faults.e_environ env)
                     (port_of (Faults.e_environ env)) subject body]
          else outbox w)
    /\ match r with
       | Ok _ => List.length (stdout w') = S (List.length (stdout w))
       | Raise _ => stdout w' = stdout w
       end.
Proof.
  rewrite send_email_steps.
  unfold Faults.hands_over, Faults.reaches_server, notifier_ready, port_of.
  destruct (getenv_port _) as [port|e].
  - destruct (all_set _ _ _ _ _).
    + destruct (utf8_encodable body).
      * destruct (Faults.e_tls env) as [e|].
        -- eexists _, _. split; [reflexivity|]. repeat split.
        -- destruct (Faults.e_smtp env) as [|e|e].
           ++ rewrite log_at_print.
              destruct (Faults.stdout_error _ _) as [e|].
              ** eexists _, _. split; [reflexivity|]. repeat split.
              ** eexists _, _. split; [reflexivity|].
                 rewrite logged_one_line.
                 match goal with
                 | |- context [Faults.logged ?le ?m ?x] =>
                     destruct (logged_keeps le m x) as (F1 & F2 & F3 & F4 & _)
                 end.
                 rewrite F1, F2, F3, F4. repeat split.
           ++ eexists _, _. split; [reflexivity|]. repeat split.
           ++ eexists _, _. split; [reflexivity|]. repeat split.
      * eexists _, _. split; [reflexivity|]. repeat split.
    + rewrite log_at_print. destruct (Faults.stdout_error _ _) as [e|].
      * eexists _, _. split; [reflexivity|]. repeat split.
      * eexists _, _. split; [reflexivity|].
        rewrite logged_one_line.
        destruct (logged_keeps (Faults.e_log env) MSG_CONFIG_INCOMPLETE w)
          as (F1 & F2 & F3 & F4 & _).
        rewrite F1, F2, F3, F4. repeat split.
  - eexists _, _. split; [reflexivity|]. repeat split.
Qed.

(** [send_email] returned: what it did. *)
Lemma send_email_incomplete_accepted
      (env : Faults.CycleEnv) (subject body : str) (w : World) (port : Z) :
  getenv_port (SMTP_PORT (Faults.e_environ env)) = Ok port ->
  all_set (SMTP_HOST (Faults.e_environ env)) port (SMTP_USER (Faults.e_environ env))
          (SMTP_PASS (Faults.e_environ env)) (EMAIL_TO (Faults.e_environ env)) = false ->
  Faults.accepts (Faults.e_log env) MSG_CONFIG_INCOMPLETE = true ->
  Faults.send_email env subject body w
  = (Faults.logged (Faults.e_log env) MSG_CONFIG_INCOMPLETE w, Ok tt).
Proof.
  intros Hp Ha Hl. rewrite send_email_steps, Hp, Ha. now apply log_accepted.
Qed.

Lemma send_email_delivers_and_returns
      (env : Faults.CycleEnv) (subject body : str) (w : World) :
  Faults.delivers_and_returns env = true ->
  utf8_encodable body = true ->
  Faults.send_email env subject body w
  = (Faults.logged (Faults.e_log env) MSG_EMAIL_SENT
       (add_outbox
          (alert_mail (Faults.e_environ env) (port_of (Faults.e_environ env))
             subject body)
          (add_smtp_session w)),
     Ok tt).
Proof.
  unfold Faults.delivers_and_returns. intros H Hb.
  apply andb_prop in H. destruct H as [H Hl].
  apply andb_prop in H. destruct H as [H Hs].
  apply andb_prop in H. destruct H as [Hr Ht].
  destruct (notifier_ready_port _ Hr) as [Hp Ha].
  rewrite send_email_steps, Hp, Ha, Hb.
  destruct (Faults.e_tls env); [discriminate|].
  destruct (Faults.e_smtp env); try discriminate.
  now apply log_accepted.
Qed.

Lemma send_email_fails_before_delivery
      (env : Faults.CycleEnv) (subject body : str) (w : World) (e : Exception) :
  Faults.failure_before_delivery env = Some e ->
  utf8_encodable body = true ->
  exists w1,
    Faults.send_email env subject body w = (w1, Raise e)
    /\ state_file w1 = state_file w
    /\ outbox w1 = outbox w
    /\ slept w1 = slept w.
Proof.
  unfold Faults.failure_before_delivery, notifier_ready. intros H Hb.
  rewrite send_email_steps, Hb.
  destruct (getenv_port _) as [port|e0].
  - destruct (all_set _ _ _ _ _); [|discriminate].
    destruct (Faults.e_tls env) as [e0|].
    + injection H as ->. eexists. repeat split.
    + destruct (Faults.e_smtp env) as [|e0|e0]; try discriminate.
      injection H as ->. eexists. repeat split.
  - injection H as ->. eexists. repeat split.
Qed.

(* ================================================================= *)
(** ** One poll cycle, with every failure *)

Lemma sleep_for_floor (env : Faults.CycleEnv) : 20 <= Faults.sleep_for env.
Proof.
  unfold Faults.sleep_for, BASE_POLL_SEC.
  destruct (45 + Faults.e_jitter env <? 20) eqn:E; [lia|].
  apply Z.ltb_ge in E. lia.
Qed.

Section FaultyCycle.

Variable db : UnicodeDB.
Variable soup_get_text : str -> result str.
Variable rt : Runtime.

Lemma try_block_steps (env : Faults.CycleEnv) (last : str) (w : World) :
  Faults.try_block db soup_get_text rt env last w
  = match Faults.e_fetch env with
    | Raise e => (w, Raise e)
    | Ok html =>
        match parse_availability db soup_get_text html with
        | Raise e => (w, Raise e)
        | Ok (false, _) =>
            match Faults.log (Faults.e_log env) MSG_NONE w with
            | (w1, Ok _) => (w1, Ok last)
            | (w1, Raise e) => (w1, Raise e)
            end
        | Ok (true, detail) =>
            if str_eqb (signature_of rt html) last then
              match Faults.log (Faults.e_log env) MSG_ALREADY w with
              | (w1, Ok _) => (w1, Ok last)
              | (w1, Raise e) => (w1, Raise e)
              end
            else
              match Faults.send_email env SUBJECT (alert_body detail) w with
              | (w1, Ok _) =>
                  (saved (platform rt) (Faults.e_write env) (signature_of rt html) w1,
                   Ok (signature_of rt html))
              | (w1, Raise e) => (w1, Raise e)
              end
        end
    end.
Proof.
  unfold Faults.try_block, Faults.fetch_html_with_playwright, bind, lift, ret.
  destruct (Faults.e_fetch env) as [html|e]; [|reflexivity].
  destruct (parse_availability db soup_get_text html) as [[[|] detail]|e];
    [| |reflexivity].
  - destruct (str_eqb (signature_of rt html) last); cbn [negb].
    + now destruct (Faults.log _ _ w) as [w1 [[]|e]].
    + destruct (Faults.send_email _ _ _ w) as [w1 [[]|e]]; [|reflexivity].
      now rewrite save_state_ok.
  - now destruct (Faults.log _ _ w) as [w1 [[]|e]].
Qed.

(** The iteration in terms of its [try] block: a result goes on to the
    sleep; an exception goes to the handler, whose [log] either gets its
    line out, and the iteration goes on to the sleep with [last_signature]
    as it was, or raises, and the iteration raises with it. *)
Lemma loop_body_steps (env : Faults.CycleEnv) (last : str) (w : World) :
  Faults.loop_body db soup_get_text rt env last w
  = match Faults.try_block db soup_get_text rt env last w with
    | (w1, Ok s) => (add_slept (Faults.sleep_for env) w1, Ok s)
    | (w1, Raise e) =>
        match Faults.stdout_error (Faults.e_log env)
                (Faults.stamped (Faults.e_log env) (MSG_ERROR ++ exc_msg e)) with
        | None =>
            (add_slept (Faults.sleep_for env)
               (Faults.logged (Faults.e_log env) (MSG_ERROR ++ exc_msg e) w1),
             Ok last)
        | Some e' => (w1, Raise e')
        end
    end.
Proof.
  unfold Faults.loop_body, bind, try_except, ret, sleep.
  destruct (Faults.try_block db soup_get_text rt env last w) as [w1 [s|e]];
    [reflexivity|].
  rewrite log_at_print. now destruct (Faults.stdout_error _ _).
Qed.

(** What the handler and the sleep make of a [try] block that raised
    without printing. *)
Lemma handler_run (env : Faults.CycleEnv) (last : str) (w1 : World)
      (e : Exception) :
  exists w' r,
    match Faults.stdout_error (Faults.e_log env)
            (Faults.stamped (Faults.e_log env) (MSG_ERROR ++ exc_msg e)) with
    | None =>
        (add_slept (Faults.sleep_for env)
           (Faults.logged (Faults.e_log env) (MSG_ERROR ++ exc_msg e) w1),
         Ok last)
    | Some e' => (w1, Raise e')
    end = (w', r)
    /\ state_file w' = state_file w1
    /\ outbox w' = outbox w1
    /\ smtp_sessions w' = smtp_sessions w1
    /\ (r = Ok last \/ exists e', r = Raise e')
    /\ match r with
       | Ok _ =>
           slept w' = slept w1 ++ [Faults.sleep_for env]
           /\ List.length (stdout w') = S (List.length (stdout w1))
       | Raise _ => slept w' = slept w1 /\ stdout w' = stdout w1
       end.
Proof.
  destruct (Faults.stdout_error _ _) as [e'|].
  - eexists _, _. split; [reflexivity|]. repeat split. right. now exists e'.
  - eexists _, _. split; [reflexivity|].
    cbn [add_slept state_file outbox smtp_sessions slept stdout].
    rewrite logged_one_line.
    destruct (logged_keeps (Faults.e_log env) (MSG_ERROR ++ exc_msg e) w1)
      as (F1 & F2 & F3 & F4 & _).
    rewrite F1, F2, F3, F4. repeat split. now left.
Qed.

(** A [log] call as the last step of the [try] block. *)
Lemma logging_cycle (env : Faults.CycleEnv) (last : str) (w : World) (msg : str) :
  exists w' r,
    match
      match Faults.log (Faults.e_log env) msg w with
      | (w1, Ok _) => (w1, Ok last)
      | (w1, Raise e) => (w1, Raise e)
      end
    with
    | (w1, Ok s) => (add_slept (Faults.sleep_for env) w1, Ok s)
    | (w1, Raise e) =>
        match Faults.stdout_error (Faults.e_log env)
                (Faults.stamped (Faults.e_log env) (MSG_ERROR ++ exc_msg e)) with
        | None =>
            (add_slept (Faults.sleep_for env)
               (Faults.logged (Faults.e_log env) (MSG_ERROR ++ exc_msg e) w1),
             Ok last)
        | Some e' => (w1, Raise e')
        end
    end = (w', r)
    /\ state_file w' = state_file w
    /\ outbox w' = outbox w
    /\ smtp_sessions w' = smtp_sessions w
    /\ (r = Ok last \/ exists e', r = Raise e')
    /\ match r with
       | Ok _ =>
           slept w' = slept w ++ [Faults.sleep_for env]
           /\ List.length (stdout w') = S (List.length (stdout w))
       | Raise _ => slept w' = slept w /\ stdout w' = stdout w
       end.
Proof.
  rewrite log_at_print. destruct (Faults.stdout_error _ (Faults.stamped _ msg)) as [e|].
  - apply (handler_run env last w e).
  - eexists _, _. split; [reflexivity|].
    cbn [add_slept state_file outbox smtp_sessions slept stdout].
    rewrite logged_one_line.
    destruct (logged_keeps (Faults.e_log env) msg w) as (F1 & F2 & F3 & F4 & _).
    rewrite F1, F2, F3, F4. repeat split. now left.
Qed.

(** A cycle that sees nothing new sends nothing and keeps the state,
    whether it ends normally or raises. *)
Lemma nothing_new_cycle (sig : str) (env : Faults.CycleEnv) (w : World) :
  Faults.no_new_content db soup_get_text rt sig env ->
  exists w' r,
    Faults.loop_body db soup_get_text rt env sig w = (w', r)
    /\ state_file w' = state_file w
    /\ outbox w' = outbox w
    /\ smtp_sessions w' = smtp_sessions w
    /\ (r = Ok sig \/ exists e, r = Raise e).
Proof.
  unfold Faults.no_new_content. intros H.
  rewrite loop_body_steps, try_block_steps.
  destruct (Faults.e_fetch env) as [html|e].
  - destruct (parse_availability db soup_get_text html) as [[[|] detail]|e].
    + rewrite H, str_eqb_refl.
      destruct (logging_cycle env sig w MSG_ALREADY)
        as (w' & r & -> & F1 & F2 & F3 & F4 & _). now exists w', r.
    + destruct (logging_cycle env sig w MSG_NONE)
        as (w' & r & -> & F1 & F2 & F3 & F4 & _). now exists w', r.
    + destruct (handler_run env sig w e)
        as (w' & r & -> & F1 & F2 & F3 & F4 & _). now exists w', r.
  - destruct (handler_run env sig w e)
      as (w' & r & -> & F1 & F2 & F3 & F4 & _). now exists w', r.
Qed.

Lemma nothing_new_cycles (sig : str) (envs : list Faults.CycleEnv) :
  Forall (Faults.no_new_content db soup_get_text rt sig) envs ->
  forall w,
  exists w' r,
    Faults.run_cycles db soup_get_text rt envs sig w = (w', r)
    /\ state_file w' = state_file w
    /\ outbox w' = outbox w
    /\ smtp_sessions w' = smtp_sessions w
    /\ (r = Ok sig \/ exists e, r = Raise e).
Proof.
  induction 1 as [|env envs Henv _ IH]; intros w; cbn [Faults.run_cycles].
  - unfold ret. eexists _, _. split; [reflexivity|]. repeat split. now left.
  - unfold bind.
    destruct (nothing_new_cycle sig env w Henv)
      as (w1 & r1 & -> & F1 & F2 & F3 & [-> | (e & ->)]).
    + destruct (IH w1) as (w2 & r2 & -> & G1 & G2 & G3 & G4).
      exists w2, r2. repeat split; congruence.
    + eexists _, _. split; [reflexivity|]. repeat split; try assumption.
      right. now exists e.
Qed.

(** Everything an iteration does to the outbox, the sessions, the sleeps
    and the lines printed. *)
Lemma cycle_run (env : Faults.CycleEnv) (last : str) (w : World) :
  exists w' r,
    Faults.loop_body db soup_get_text rt env last w = (w', r)
    /\ (outbox w' = outbox w
        \/ outbox w' = outbox w ++ [the_alert (Faults.e_environ env)])
    /\ (smtp_sessions w' = smtp_sessions w
        \/ smtp_sessions w' = S (smtp_sessions w))
    /\ match r with
       | Ok _ =>
           slept w' = slept w ++ [Faults.sleep_for env]
           /\ List.length (stdout w') = S (List.length (stdout w))
       | Raise _ => slept w' = slept w /\ stdout w' = stdout w
       end.
Proof.
  rewrite loop_body_steps, try_block_steps.
  destruct (Faults.e_fetch env) as [html|e].
  - destruct (parse_availability db soup_get_text html) as [[[|] detail]|e] eqn:Hp.
    + destruct (str_eqb (signature_of rt html) last).
      * destruct (logging_cycle env last w MSG_ALREADY)
          as (w' & r & -> & _ & F2 & F3 & _ & F5).
        exists w', r. repeat split; auto.
      * rewrite (parse_availability_detail db soup_get_text html detail Hp).
        destruct (send_email_run env SUBJECT (alert_body REASON_ABSENT) w)
          as (w1 & r1 & -> & _ & G2 & G3 & G4 & G5).
        assert (O1 : outbox w1 = outbox w
                     \/ outbox w1 = outbox w ++ [the_alert (Faults.e_environ env)]).
        { rewrite G4. destruct (Faults.hands_over env _); [now right | now left]. }
        assert (S1 : smtp_sessions w1 = smtp_sessions w
                     \/ smtp_sessions w1 = S (smtp_sessions w)).
        { rewrite G3. destruct (Faults.reaches_server env _); [now right | now left]. }
        destruct r1 as [[]|e].
        -- destruct (saved_frame (platform rt) (Faults.e_write env)
                       (signature_of rt html) w1) as (T1 & _ & T3 & T4 & T5).
           eexists _, _. split; [reflexivity|].
           cbn [add_slept outbox smtp_sessions slept stdout].
           rewrite T1, T3, T4, T5, G2, G5. repeat split; assumption.
        -- destruct (handler_run env last w1 e)
             as (w' & r & -> & _ & F2 & F3 & _ & F5).
           exists w', r. split; [reflexivity|]. rewrite F2, F3.
           split; [assumption|]. split; [assumption|].
           destruct r; rewrite <- G2, <- G5; exact F5.
    + destruct (logging_cycle env last w MSG_NONE)
        as (w' & r & -> & _ & F2 & F3 & _ & F5).
      exists w', r. repeat split; auto.
    + destruct (handler_run env last w e)
        as (w' & r & -> & _ & F2 & F3 & _ & F5).
      exists w', r. repeat split; auto.
  - destruct (handler_run env last w e)
      as (w' & r & -> & _ & F2 & F3 & _ & F5).
    exists w', r. repeat split; auto.
Qed.

(** A cycle on a new Available page, by what [send_email] does. *)
Lemma new_page_cycle (env : Faults.CycleEnv) (last : str) (w : World)
      (html detail : str) :
  Faults.e_fetch env = Ok html ->
  parse_availability db soup_get_text html = Ok (true, detail) ->
  signature_of rt html <> last ->
  Faults.loop_body db soup_get_text rt env last w
  = match Faults.send_email env SUBJECT (alert_body detail) w with
    | (w1, Ok _) =>
        (add_slept (Faults.sleep_for env)
           (saved (platform rt) (Faults.e_write env) (signature_of rt html) w1),
         Ok (signature_of rt html))
    | (w1, Raise e) =>
        match Faults.stdout_error (Faults.e_log env)
                (Faults.stamped (Faults.e_log env) (MSG_ERROR ++ exc_msg e)) with
        | None =>
            (add_slept (Faults.sleep_for env)
               (Faults.logged (Faults.e_log env) (MSG_ERROR ++ exc_msg e) w1),
             Ok last)
        | Some e' => (w1, Raise e')
        end
    end.
Proof.
  intros Hf Hp N. rewrite loop_body_steps, try_block_steps, Hf, Hp.
  rewrite (str_eqb_neq _ _ N).
  now destruct (Faults.send_email _ _ _ w) as [w1 [[]|e]].
Qed.

(** A cycle on an Available page whose fingerprint is [last_signature]. *)
Lemma known_page_cycle (env : Faults.CycleEnv) (w : World) (html detail : str) :
  Faults.e_fetch env = Ok html ->
  parse_availability db soup_get_text html = Ok (true, detail) ->
  exists w' r,
    Faults.loop_body db soup_get_text rt env (signature_of rt html) w = (w', r)
    /\ state_file w' = state_file w
    /\ outbox w' = outbox w
    /\ smtp_sessions w' = smtp_sessions w
    /\ (r = Ok (signature_of rt html) \/ exists e, r = Raise e).
Proof.
  intros Hf Hp. apply nothing_new_cycle. unfold Faults.no_new_content.
  now rewrite Hf, Hp.
Qed.

Lemma run_cycles_split (envs1 envs2 : list Faults.CycleEnv) :
  forall last w,
  Faults.run_cycles db soup_get_text rt (envs1 ++ envs2) last w
  = match Faults.run_cycles db soup_get_text rt envs1 last w with
    | (w1, Ok last1) => Faults.run_cycles db soup_get_text rt envs2 last1 w1
    | (w1, Raise e) => (w1, Raise e)
    end.
Proof.
  induction envs1 as [|env envs1 IH]; intros last w; cbn [app Faults.run_cycles];
    [reflexivity|].
  unfold bind.
  destruct (Faults.loop_body db soup_get_text rt env last w) as [w1 [last1|e]];
    [apply IH | reflexivity].
Qed.

End FaultyCycle.

(* ================================================================= *)
(** ** The two parts agree *)

(** With a terminal that takes every line, a directory that answers and an
    SMTP server that fails, if at all, before it has the message, the
    functions of [Faults] are those of the first part. *)

Lemma reliable_log_eq (le : LogEnv) (msg : str) (w : World) :
  Faults.log (reliable_log le) msg w = log le msg w.
Proof.
  unfold Faults.log, log, bind, Faults.print, print, try_except,
    Faults.log_file_append, log_file_append, reliable_log, ret.
  cbn [Faults.stdout_error Faults.now Faults.log_file_error]. reflexivity.
Qed.

Lemma reliable_send_email (env : CycleEnv) (subject body : str) (w : World) :
  utf8_encodable body = true ->
  Faults.send_email (reliable env) subject body w = send_email env subject body w.
Proof.
  intros Hb. rewrite send_email_steps. unfold send_email, bind, lift, smtp_send.
  cbn [reliable Faults.e_environ Faults.e_tls Faults.e_smtp Faults.e_log].
  rewrite Hb, !reliable_log_eq.
  destruct (getenv_port _) as [port|e]; [|reflexivity].
  destruct (all_set _ _ _ _ _); [|reflexivity]. cbn [negb].
  destruct (e_smtp env); reflexivity.
Qed.

Lemma reliable_load_state (r : ReadOutcome) (w : World) :
  Faults.load_state Faults.ExistsAnswers r w = load_state r w.
Proof. reflexivity. Qed.

Section Agreement.

Variable db : UnicodeDB.
Variable soup_get_text : str -> result str.
Variable rt : Runtime.

Lemma reliable_loop_body (env : CycleEnv) (last : str) (w : World) :
  Faults.loop_body db soup_get_text rt (reliable env) last w
  = loop_body db soup_get_text rt env last w.
Proof.
  unfold Faults.loop_body, loop_body, Faults.try_block, try_block,
    Faults.fetch_html_with_playwright, fetch_html_with_playwright,
    bind, lift, try_except.
  cbn [reliable Faults.e_fetch Faults.e_log Faults.e_write].
  destruct (e_fetch env) as [html|e].
  - destruct (parse_availability db soup_get_text html) as [[[|] detail]|e] eqn:Hp.
    + destruct (negb (str_eqb (signature_of rt html) last)).
      * rewrite (parse_availability_detail db soup_get_text html detail Hp).
        rewrite (reliable_send_email env _ _ w REASON_ABSENT_encodable).
        destruct (send_email env _ _ w) as [w1 [[]|e]];
          [reflexivity | now rewrite reliable_log_eq].
      * rewrite reliable_log_eq.
        destruct (log _ _ w) as [w1 [[]|e]];
          [reflexivity | now rewrite reliable_log_eq].
    + rewrite reliable_log_eq.
      destruct (log _ _ w) as [w1 [[]|e]];
        [reflexivity | now rewrite reliable_log_eq].
    + now rewrite reliable_log_eq.
  - now rewrite reliable_log_eq.
Qed.

Lemma reliable_run_cycles (envs : list CycleEnv) :
  forall last w,
  Faults.run_cycles db soup_get_text rt (map reliable envs) last w
  = run_cycles db soup_get_text rt envs last w.
Proof.
  induction envs as [|env envs IH]; intros last w; cbn [map Faults.run_cycles run_cycles];
    [reflexivity|].
  unfold bind. rewrite reliable_loop_body.
  destruct (loop_body db soup_get_text rt env last w) as [w1 [last1|e]];
    [apply IH | reflexivity].
Qed.

Lemma reliable_main (start_log : LogEnv) (start_read : ReadOutcome)
      (envs : list CycleEnv) (w : World) :
  Faults.main db soup_get_text rt (reliable_log start_log) Faults.ExistsAnswers
    start_read (map reliable envs) w
  = main db soup_get_text rt start_log start_read envs w.
Proof.
  unfold Faults.main, main, bind. rewrite reliable_log_eq.
  destruct (log start_log MSG_STARTED w) as [w1 [[]|e]]; [|reflexivity].
  rewrite reliable_load_state.
  destruct (load_state start_read w1) as [w2 [last|e]]; [|reflexivity].
  apply reliable_run_cycles.
Qed.

End Agreement.

(* ================================================================= *)
(** ** The loop can be left *)

(** C5.  The poll loop is not infallible.  The handler of the loop calls
    [log], whose [print] stands outside any [try]: when the browser is not
    installed and standard output is Latin-1, the fetch raises, the handler
    cannot print the message of the error, and the [UnicodeEncodeError]
    leaves the iteration, the loop and [main], with no sleep; the cycles
    that would have followed never run. *)
Theorem poll_loop_escapes :
  Faults.loop_body latin1_db plain_get_text process1 env_no_browser [] world0
  = (world0, Raise latin1_error)
  /\ Faults.run_cycles latin1_db plain_get_text process1
       [env_no_browser; cycle_on latin1_terminal doc_none smtp_complete Faults.Delivered]
       [] world0
     = (world0, Raise latin1_error)
  /\ snd (Faults.main latin1_db plain_get_text process1 (clock_on latin1_terminal)
            Faults.ExistsAnswers ReadOk
            [env_no_browser;
             cycle_on latin1_terminal doc_none smtp_complete Faults.Delivered]
            world0)
     = Raise latin1_error
  /\ slept (fst (Faults.main latin1_db plain_get_text process1
                   (clock_on latin1_terminal) Faults.ExistsAnswers ReadOk
                   [env_no_browser;
                    cycle_on latin1_terminal doc_none smtp_complete Faults.Delivered]
                   world0))
     = [].
Proof. vm_compute. repeat split. Qed.

(* ================================================================= *)
(** ** Dedup, with every failure *)

Section FaultyDedup.

Variable db : UnicodeDB.
Variable soup_get_text : str -> result str.
Variable rt : Runtime.

(** C2, as amended.  Two consecutive cycles whose classification is
    Available and whose fingerprints are identical deliver at most one
    message each.  When the fingerprint differs from [last_signature] at the
    first cycle and [send_email] delivers and returns there, exactly one
    message is delivered: the second cycle finds its fingerprint equal to
    [last_signature], opens no SMTP session and sends nothing.  And whenever
    [send_email] returned in the first cycle, the second sends nothing. *)
Theorem dedup_law (env1 env2 : Faults.CycleEnv) (last : str) (w w1 w2 : World)
        (html1 html2 d1 d2 last1 : str) (r2 : result str) :
  Faults.e_fetch env1 = Ok html1 ->
  Faults.e_fetch env2 = Ok html2 ->
  parse_availability db soup_get_text html1 = Ok (true, d1) ->
  parse_availability db soup_get_text html2 = Ok (true, d2) ->
  signature_of rt html1 = signature_of rt html2 ->
  Faults.loop_body db soup_get_text rt env1 last w = (w1, Ok last1) ->
  Faults.loop_body db soup_get_text rt env2 last1 w1 = (w2, r2) ->
  (outbox w1 = outbox w
   \/ outbox w1 = outbox w ++ [the_alert (Faults.e_environ env1)])
  /\ (outbox w2 = outbox w1
      \/ outbox w2 = outbox w1 ++ [the_alert (Faults.e_environ env2)])
  /\ (signature_of rt html1 <> last ->
      Faults.delivers_and_returns env1 = true ->
      last1 = signature_of rt html1
      /\ outbox w1 = outbox w ++ [the_alert (Faults.e_environ env1)]
      /\ outbox w2 = outbox w1
      /\ smtp_sessions w2 = smtp_sessions w1)
  /\ (forall wx,
         signature_of rt html1 <> last ->
         Faults.send_email env1 SUBJECT (alert_body d1) w = (wx, Ok tt) ->
         last1 = signature_of rt html1
         /\ outbox w2 = outbox w1
         /\ smtp_sessions w2 = smtp_sessions w1).
Proof.
  intros Hf1 Hf2 Hp1 Hp2 Hsig E1 E2.
  assert (Q : forall wx,
             signature_of rt html1 <> last ->
             Faults.send_email env1 SUBJECT (alert_body d1) w = (wx, Ok tt) ->
             last1 = signature_of rt html1
             /\ outbox w2 = outbox w1
             /\ smtp_sessions w2 = smtp_sessions w1).
  { intros wx N Hsend.
    rewrite (new_page_cycle db soup_get_text rt env1 last w html1 d1 Hf1 Hp1 N),
      Hsend in E1.
    injection E1 as _ <-. split; [reflexivity|].
    rewrite Hsig in E2.
    destruct (known_page_cycle db soup_get_text rt env2 w1 html2 d2 Hf2 Hp2)
      as (w' & r & E & _ & F2 & F3 & _).
    rewrite E2 in E. injection E as <- _. now split. }
  split; [|split; [|split; [|exact Q]]].
  - destruct (cycle_run db soup_get_text rt env1 last w) as (w' & r & E & O & _).
    rewrite E1 in E. injection E as <- _. exact O.
  - destruct (cycle_run db soup_get_text rt env2 last1 w1) as (w' & r & E & O & _).
    rewrite E2 in E. injection E as <- _. exact O.
  - intros N Hd.
    assert (Hb : utf8_encodable (alert_body d1) = true).
    { rewrite (parse_availability_detail db soup_get_text html1 d1 Hp1).
      apply REASON_ABSENT_encodable. }
    assert (Hsend := send_email_delivers_and_returns env1 SUBJECT (alert_body d1) w
                       Hd Hb).
    destruct (Q _ N Hsend) as (L & O2 & S2).
    split; [exact L|]. split; [|now split].
    rewrite (new_page_cycle db soup_get_text rt env1 last w html1 d1 Hf1 Hp1 N),
      Hsend in E1.
    injection E1 as <- _.
    rewrite (parse_availability_detail db soup_get_text html1 d1 Hp1).
    match goal with
    | |- outbox (add_slept _ (saved ?p ?o ?s ?x)) = _ =>
        destruct (saved_frame p o s x) as (_ & _ & S3 & _);
        cbn [add_slept outbox]; rewrite S3
    end.
    match goal with
    | |- outbox (Faults.logged ?le ?m ?x) = _ =>
        destruct (logged_keeps le m x) as (_ & L4 & _); rewrite L4
    end.
    reflexivity.
Qed.

End FaultyDedup.

Lemma dedup_law_witness :
  exists w1 w2,
    Faults.loop_body latin1_db plain_get_text process1 (reliable env_delivers) []
      world0
    = (w1, Ok (signature_of process1 doc_slots))
    /\ Faults.loop_body latin1_db plain_get_text process1 (reliable env_delivers)
         (signature_of process1 doc_slots) w1
       = (w2, Ok (signature_of process1 doc_slots))
    /\ outbox w1
       = outbox world0 ++ [the_alert (Faults.e_environ (reliable env_delivers))]
    /\ outbox w2 = outbox w1
    /\ smtp_sessions w2 = smtp_sessions w1.
Proof.
  set (c1 := Faults.loop_body latin1_db plain_get_text process1
               (reliable env_delivers) [] world0).
  set (c2 := Faults.loop_body latin1_db plain_get_text process1
               (reliable env_delivers) (signature_of process1 doc_slots) (fst c1)).
  assert (E1 : c1 = (fst c1, Ok (signature_of process1 doc_slots)))
    by (vm_compute; reflexivity).
  assert (E2 : c2 = (fst c2, Ok (signature_of process1 doc_slots)))
    by (vm_compute; reflexivity).
  destruct (dedup_law latin1_db plain_get_text process1
              (reliable env_delivers) (reliable env_delivers) [] world0
              (fst c1) (fst c2) doc_slots doc_slots REASON_ABSENT REASON_ABSENT
              (signature_of process1 doc_slots)
              (Ok (signature_of process1 doc_slots)))
    as (_ & _ & H & _).
  - reflexivity.
  - reflexivity.
  - vm_compute. reflexivity.
  - vm_compute. reflexivity.
  - reflexivity.
  - exact E1.
  - exact E2.
  - destruct H as (_ & O1 & O2 & S2).
    + vm_compute. discriminate.
    + vm_compute. reflexivity.
    + exists (fst c1), (fst c2).
      split; [exact E1|]. split; [exact E2|]. split; [exact O1|].
      split; [exact O2 | exact S2].
Defined.

(** The law as stated fails both ways.  When the fingerprint is already the
    last one notified, two consecutive Available cycles with identical
    fingerprints send no message at all.  And they send two when the first
    delivers and [send_email] raises afterwards: on a Latin-1 terminal the
    line "Email d’alerte envoyé." cannot be printed, and a server may fail
    on QUIT; [save_state] and the assignment to [last_signature] are
    skipped, and the second cycle sends the alert again. *)
Lemma dedup_law_counterexample :
  parse_availability latin1_db plain_get_text doc_slots = Ok (true, REASON_ABSENT)
  /\ Faults.run_cycles latin1_db plain_get_text process1
       [reliable env_delivers; reliable env_delivers]
       (signature_of process1 doc_slots)
       (world_with_state (signature_of process1 doc_slots))
     = (fst (Faults.run_cycles latin1_db plain_get_text process1
               [reliable env_delivers; reliable env_delivers]
               (signature_of process1 doc_slots)
               (world_with_state (signature_of process1 doc_slots))),
        Ok (signature_of process1 doc_slots))
  /\ sent_during
       (world_with_state (signature_of process1 doc_slots))
       (fst (Faults.run_cycles latin1_db plain_get_text process1
               [reliable env_delivers; reliable env_delivers]
               (signature_of process1 doc_slots)
               (world_with_state (signature_of process1 doc_slots))))
     = 0%nat
  /\ snd (Faults.run_cycles latin1_db plain_get_text process1
            [cycle_on latin1_terminal doc_slots smtp_complete Faults.Delivered;
             cycle_on latin1_terminal doc_slots smtp_complete Faults.Delivered]
            [] world0)
     = Ok []
  /\ sent_during world0
       (fst (Faults.run_cycles latin1_db plain_get_text process1
               [cycle_on latin1_terminal doc_slots smtp_complete Faults.Delivered;
                cycle_on latin1_terminal doc_slots smtp_complete Faults.Delivered]
               [] world0))
     = 2%nat
  /\ sent_during world0
       (fst (Faults.run_cycles latin1_db plain_get_text process1
               [cycle_on (fun _ => None) doc_slots smtp_complete
                  (Faults.RaisesAfterDelivery quit_failed);
                reliable env_delivers]
               [] world0))
     = 2%nat.
Proof. vm_compute. repeat split. Qed.

(* ================================================================= *)
(** ** Incomplete notifier configuration, with every failure *)

Section FaultyIncompleteConfig.

Variable db : UnicodeDB.
Variable soup_get_text : str -> result str.
Variable rt : Runtime.

(** C9, as amended.  When the notifier configuration is incomplete (one of
    host, user, password, recipient unset or empty, or port 0), SMTP_PORT
    is unset or an integer and standard output takes the line "Config email
    incomplète. Aucune alerte envoyée.", [send_email] logs and returns
    normally without opening an SMTP session; the cycle that detected new
    availability then saves the new fingerprint and takes it as
    [last_signature] exactly as after a notification that was delivered and
    logged; and no later cycle sends anything, even with the configuration
    completed, for as long as no cycle brings an Available document with
    another fingerprint. *)
Theorem incomplete_config_drops_alert
        (env : Faults.CycleEnv) (last : str) (w : World)
        (html detail : str) (port : Z) :
  Faults.e_fetch env = Ok html ->
  parse_availability db soup_get_text html = Ok (true, detail) ->
  signature_of rt html <> last ->
  getenv_port (SMTP_PORT (Faults.e_environ env)) = Ok port ->
  all_set (SMTP_HOST (Faults.e_environ env)) port (SMTP_USER (Faults.e_environ env))
          (SMTP_PASS (Faults.e_environ env)) (EMAIL_TO (Faults.e_environ env)) = false ->
  Faults.accepts (Faults.e_log env) MSG_CONFIG_INCOMPLETE = true ->
  Faults.send_email env SUBJECT (alert_body detail) w
  = (Faults.logged (Faults.e_log env) MSG_CONFIG_INCOMPLETE w, Ok tt)
  /\ exists w',
      Faults.loop_body db soup_get_text rt env last w
      = (w', Ok (signature_of rt html))
      /\ w' = add_slept (Faults.sleep_for env)
                (saved (platform rt) (Faults.e_write env) (signature_of rt html)
                   (Faults.logged (Faults.e_log env) MSG_CONFIG_INCOMPLETE w))
      /\ outbox w' = outbox w
      /\ smtp_sessions w' = smtp_sessions w
      /\ (forall env_ok,
             Faults.e_fetch env_ok = Ok html ->
             Faults.e_write env_ok = Faults.e_write env ->
             Faults.delivers_and_returns env_ok = true ->
             exists w_ok,
               Faults.loop_body db soup_get_text rt env_ok last w
               = (w_ok, Ok (signature_of rt html))
               /\ state_file w_ok = state_file w')
      /\ (forall envs,
             Forall (Faults.no_new_content db soup_get_text rt (signature_of rt html))
                    envs ->
             exists w'' r,
               Faults.run_cycles db soup_get_text rt envs (signature_of rt html) w'
               = (w'', r)
               /\ outbox w'' = outbox w
               /\ smtp_sessions w'' = smtp_sessions w
               /\ (r = Ok (signature_of rt html) \/ exists e, r = Raise e)).
Proof.
  intros Hf Hp N Hport Hall Hacc.
  assert (Hsend := send_email_incomplete_accepted env SUBJECT (alert_body detail) w
                     port Hport Hall Hacc).
  split; [exact Hsend|].
  rewrite (new_page_cycle db soup_get_text rt env last w html detail Hf Hp N), Hsend.
  destruct (logged_keeps (Faults.e_log env) MSG_CONFIG_INCOMPLETE w)
    as (L1 & L2 & L3 & _).
  destruct (saved_frame (platform rt) (Faults.e_write env) (signature_of rt html)
              (Faults.logged (Faults.e_log env) MSG_CONFIG_INCOMPLETE w))
    as (_ & _ & S3 & S4 & _).
  eexists. split; [reflexivity|]. split; [reflexivity|].
  cbn [add_slept outbox smtp_sessions state_file]. rewrite S3, S4, L2, L3.
  split; [reflexivity|]. split; [reflexivity|]. split.
  - intros env_ok Hf' Hw' Hd'.
    assert (Hb : utf8_encodable (alert_body detail) = true).
    { rewrite (parse_availability_detail db soup_get_text html detail Hp).
      apply REASON_ABSENT_encodable. }
    rewrite (new_page_cycle db soup_get_text rt env_ok last w html detail Hf' Hp N).
    rewrite (send_email_delivers_and_returns env_ok _ _ w Hd' Hb).
    eexists. split; [reflexivity|]. cbn [add_slept state_file]. rewrite Hw'.
    apply saved_state_file.
    match goal with
    | |- state_file (Faults.logged ?le ?m ?x) = _ =>
        destruct (logged_keeps le m x) as (L4 & _); rewrite L4
    end.
    cbn [add_outbox add_smtp_session state_file]. now rewrite L1.
  - intros envs Hq.
    destruct (nothing_new_cycles db soup_get_text rt (signature_of rt html) envs Hq
                (add_slept (Faults.sleep_for env)
                   (saved (platform rt) (Faults.e_write env) (signature_of rt html)
                      (Faults.logged (Faults.e_log env) MSG_CONFIG_INCOMPLETE w))))
      as (w'' & r & E & _ & O & S & R).
    exists w'', r. split; [exact E|].
    cbn [add_slept outbox smtp_sessions] in O, S.
    rewrite O, S, S3, S4, L2, L3. now repeat split.
Qed.

End FaultyIncompleteConfig.

Lemma incomplete_config_drops_alert_witness :
  Faults.send_email (cycle_on latin1_terminal doc_slots smtp_no_host Faults.Delivered)
    SUBJECT (alert_body REASON_ABSENT) world0
  = (Faults.logged
       (Faults.e_log (cycle_on latin1_terminal doc_slots smtp_no_host Faults.Delivered))
       MSG_CONFIG_INCOMPLETE world0,
     Ok tt)
  /\ exists w',
      Faults.loop_body latin1_db plain_get_text process1
        (cycle_on latin1_terminal doc_slots smtp_no_host Faults.Delivered) [] world0
      = (w', Ok (signature_of process1 doc_slots))
      /\ outbox w' = outbox world0
      /\ exists w'' r,
          Faults.run_cycles latin1_db plain_get_text process1
            [reliable env_delivers; reliable env_delivers]
            (signature_of process1 doc_slots) w'
          = (w'', r)
          /\ outbox w'' = outbox world0.
Proof.
  destruct (incomplete_config_drops_alert latin1_db plain_get_text process1
              (cycle_on latin1_terminal doc_slots smtp_no_host Faults.Delivered)
              [] world0 doc_slots REASON_ABSENT 587)
    as (Hsend & w' & E & _ & O & _ & _ & Hlater).
  - reflexivity.
  - vm_compute. reflexivity.
  - vm_compute. discriminate.
  - reflexivity.
  - reflexivity.
  - vm_compute. reflexivity.
  - split; [exact Hsend|]. exists w'. split; [exact E|]. split; [exact O|].
    destruct (Hlater [reliable env_delivers; reliable env_delivers])
      as (w'' & r & E2 & O2 & _).
    + apply Forall_cons; [vm_compute; reflexivity|].
      apply Forall_cons; [vm_compute; reflexivity|]. apply Forall_nil.
    + exists w'', r. split; [exact E2 | exact O2].
Defined.

(** The statement without these provisos fails.  With the host unset and a
    malformed SMTP_PORT, [send_email] raises instead of returning.  The
    content whose alert was swallowed does trigger a notification in a later
    cycle, once another Available document has come in between.  And on a
    terminal that cannot show "è", [send_email] raises on its own log line,
    and the fingerprint is not saved. *)
Lemma incomplete_config_counterexample :
  truthy (SMTP_HOST smtp_no_host_bad_port) = false
  /\ Faults.send_email (reliable env_bad_port) SUBJECT (alert_body REASON_ABSENT)
       world0
     = (world0, Raise bad_port)
  /\ truthy (SMTP_HOST smtp_no_host) = false
  /\ sent_during world0
       (fst (Faults.run_cycles latin1_db plain_get_text process1
               [reliable env_no_host; reliable env_other] [] world0))
     = 1%nat
  /\ sent_during world0
       (fst (Faults.run_cycles latin1_db plain_get_text process1
               [reliable env_no_host; reliable env_other; reliable env_delivers]
               [] world0))
     = 2%nat
  /\ Faults.send_email (cycle_on ascii_terminal doc_slots smtp_no_host Faults.Delivered)
       SUBJECT (alert_body REASON_ABSENT) world0
     = (world0, Raise ascii_error)
  /\ state_file
       (fst (Faults.loop_body latin1_db plain_get_text process1
               (cycle_on ascii_terminal doc_slots smtp_no_host Faults.Delivered)
               [] world0))
     = Absent.
Proof. vm_compute. repeat split. Qed.

(* ================================================================= *)
(** ** The state file, with every failure *)

(** C10, as amended.  For a string [s] with no whitespace at either end and
    no carriage return, if [save_state s] writes the file and the read that
    follows succeeds, [load_state] returns exactly [s].  In general, when the
    existence test answers, [load_state] returns the stored text, line ends
    read as "\n" and surrounding whitespace stripped, and the empty string
    when the file is absent or cannot be read. *)
Theorem state_round_trip (p : Platform) (s : str) (w : World) (r : ReadOutcome) :
  strip s = s ->
  Forall (fun c => c <> CR) s ->
  utf8_encodable s = true ->
  save_state p WriteOk s w = (saved p WriteOk s w, Ok tt)
  /\ Faults.load_state Faults.ExistsAnswers ReadOk (saved p WriteOk s w)
     = (saved p WriteOk s w, Ok s)
  /\ Faults.load_state Faults.ExistsAnswers r w
     = (w, Ok match state_file w with
              | Absent => []
              | Present content =>
                  match r with
                  | ReadOk => strip (universal_newlines content)
                  | ReadFails _ => []
                  end
              end).
Proof.
  intros Hstrip Hcr Henc. split; [apply save_state_ok|].
  split; [|apply load_state_answered].
  rewrite load_state_answered, (saved_ok p s w Henc), (universal_translate p s Hcr).
  now rewrite Hstrip.
Qed.

Lemma state_round_trip_witness :
  save_state Windows WriteOk (lit "-5873805723803259440") world0
  = (saved Windows WriteOk (lit "-5873805723803259440") world0, Ok tt)
  /\ Faults.load_state Faults.ExistsAnswers ReadOk
       (saved Windows WriteOk (lit "-5873805723803259440") world0)
     = (saved Windows WriteOk (lit "-5873805723803259440") world0,
        Ok (lit "-5873805723803259440"))
  /\ Faults.load_state Faults.ExistsAnswers (ReadFails disk_full)
       (world_with_state (lit " 42 "))
     = (world_with_state (lit " 42 "), Ok []).
Proof.
  apply (state_round_trip Windows (lit "-5873805723803259440")
           (world_with_state (lit " 42 ")) (ReadFails disk_full)).
  - vm_compute. reflexivity.
  - vm_compute. repeat constructor; discriminate.
  - vm_compute. reflexivity.
Defined.

(** A string with no whitespace at either end that does not survive the
    round trip: the carriage return comes back as a line feed.  And a state
    file that cannot be reached, for which [load_state] raises: the
    existence test stands outside the [try]. *)
Lemma state_round_trip_counterexample :
  strip [49; CR; 50] = [49; CR; 50]
  /\ save_state Posix WriteOk [49; CR; 50] world0
     = (world_with_state [49; CR; 50], Ok tt)
  /\ Faults.load_state Faults.ExistsAnswers ReadOk (world_with_state [49; CR; 50])
     = (world_with_state [49; CR; 50], Ok [49; LF; 50])
  /\ Faults.load_state (Faults.ExistsRaises denied) (ReadFails denied)
       (world_with_state (lit "42"))
     = (world_with_state (lit "42"), Raise denied).
Proof. vm_compute. repeat split. Qed.

(* ================================================================= *)
(** ** [log] and [send_email], with every failure *)

(** X6.  [log] raises exactly when [print] raises on the line, and then
    leaves the log file alone: the append comes after [print].  When [print]
    returns, the log file receives the line (with a newline) if it can be
    appended to and is left as it was if it cannot, and [log] returns either
    way.  Nothing else changes. *)
Theorem log_raises_exactly_at_print (le : Faults.LogEnv) (msg : str) (w : World) :
  exists w',
    Faults.log le msg w
    = (w', match Faults.stdout_error le (lit "[" ++ Faults.now le ++ lit "] " ++ msg) with
           | None => Ok tt
           | Some e => Raise e
           end)
    /\ stdout w'
       = match Faults.stdout_error le (lit "[" ++ Faults.now le ++ lit "] " ++ msg) with
         | None => stdout w ++ [lit "[" ++ Faults.now le ++ lit "] " ++ msg]
         | Some _ => stdout w
         end
    /\ log_file w'
       = match Faults.stdout_error le (lit "[" ++ Faults.now le ++ lit "] " ++ msg),
               Faults.log_file_error le with
         | None, None =>
             log_file w ++ [lit "[" ++ Faults.now le ++ lit "] " ++ msg ++ [LF]]
         | _, _ => log_file w
         end
    /\ state_file w' = state_file w
    /\ outbox w' = outbox w
    /\ smtp_sessions w' = smtp_sessions w
    /\ slept w' = slept w.
Proof.
  rewrite log_at_print. unfold Faults.logged, Faults.stamped.
  destruct (Faults.stdout_error le _).
  - eexists. repeat split.
  - destruct (Faults.log_file_error le); eexists; repeat split.
    cbn [add_log_file add_stdout log_file]. now rewrite <- !app_assoc.
Qed.

(** X7.  [send_email] opens an SMTP session only when SMTP_PORT parses,
    host, port, user, password and recipient are all set, the body can be
    encoded in utf-8 and the TLS context could be created; the server gets
    the message exactly when, in addition, the dialogue reaches the end of
    [sendmail] (whether or not [send_email] raises afterwards), and then
    one message, from SMTP_USER to EMAIL_TO, on port 587 unless SMTP_PORT
    says otherwise; the state file is never touched. *)
Theorem send_email_sessions_and_delivery
        (env : Faults.CycleEnv) (subject body : str) (w : World) :
  state_file (fst (Faults.send_email env subject body w)) = state_file w
  /\ smtp_sessions (fst (Faults.send_email env subject body w))
     = (if Faults.reaches_server env body
        then S (smtp_sessions w) else smtp_sessions w)
  /\ outbox (fst (Faults.send_email env subject body w))
     = (if Faults.hands_over env body
        then outbox w
             ++ [{| mail_host := getenv_or_empty (SMTP_HOST (Faults.e_environ env));
                    mail_port := match SMTP_PORT (Faults.e_environ env) with
                                 | PortInt n => n
                                 | _ => 587
                                 end;
                    mail_from := getenv_or_empty (SMTP_USER (Faults.e_environ env));
                    mail_to := getenv_or_empty (EMAIL_TO (Faults.e_environ env));
                    mail_subject := subject;
                    mail_body := body |}]
        else outbox w).
Proof.
  destruct (send_email_run env subject body w)
    as (w' & r & -> & F1 & _ & F3 & F4 & _).
  cbn [fst]. split; [exact F1|]. split; [exact F3|]. rewrite F4.
  unfold alert_mail, port_of, getenv_port.
  destruct (SMTP_PORT (Faults.e_environ env)); reflexivity.
Qed.

(* ================================================================= *)
(** ** Whole runs, with every failure *)

Section FaultyRuns.

Variable db : UnicodeDB.
Variable soup_get_text : str -> result str.
Variable rt : Runtime.

(** X9.  Pacing.  A run of iterations stops at the first one that raises.
    Each iteration that ends normally sleeps once, for at least 20 seconds,
    and prints one log line; in the one that raises there is no sleep and
    no [print] call returns.  [n] iterations open at most [n] SMTP sessions
    and add at most [n] messages to those already delivered, removing
    none. *)
Theorem run_cycles_paced (envs : list Faults.CycleEnv) (last : str) (w : World) :
  exists w' r k,
    Faults.run_cycles db soup_get_text rt envs last w = (w', r)
    /\ match r with
       | Ok _ => k = List.length envs
       | Raise _ => (k < List.length envs)%nat
       end
    /\ slept w' = slept w ++ map Faults.sleep_for (firstn k envs)
    /\ Forall (fun d => 20 <= d) (map Faults.sleep_for envs)
    /\ List.length (stdout w') = (List.length (stdout w) + k)%nat
    /\ (smtp_sessions w' <= smtp_sessions w + List.length envs)%nat
    /\ exists new,
        outbox w' = outbox w ++ new
        /\ (List.length new <= List.length envs)%nat.
Proof.
  revert last w. induction envs as [|env envs IH]; intros last w.
  - exists w, (Ok last), 0%nat. cbn. rewrite !app_nil_r, Nat.add_0_r.
    do 5 (split; [reflexivity || constructor|]). split; [lia|].
    exists []. now rewrite app_nil_r.
  - cbn [Faults.run_cycles]. unfold bind.
    destruct (cycle_run db soup_get_text rt env last w)
      as (w1 & r1 & -> & O & Sm & P).
    destruct r1 as [last1|e].
    + destruct P as [Sl St].
      destruct (IH last1 w1) as (w' & r & k & -> & I0 & I1 & I2 & I3 & I4 & new & I5 & I6).
      exists w', r, (S k). split; [reflexivity|].
      cbn [List.length firstn map].
      split; [destruct r; lia|].
      split; [rewrite I1, Sl, <- app_assoc; reflexivity|].
      split; [constructor; [apply sleep_for_floor | exact I2]|].
      split; [lia|].
      split; [destruct Sm as [Sm|Sm]; rewrite Sm in I4; lia|].
      destruct O as [O|O]; rewrite I5, O.
      * exists new. split; [reflexivity | lia].
      * exists (the_alert (Faults.e_environ env) :: new).
        rewrite <- app_assoc. cbn [app List.length]. split; [reflexivity | lia].
    + destruct P as [Sl St].
      exists w1, (Raise e), 0%nat. split; [reflexivity|].
      cbn [List.length firstn map]. rewrite app_nil_r, Nat.add_0_r.
      split; [lia|]. split; [exact Sl|].
      split.
      { constructor; [apply sleep_for_floor|].
        clear. induction envs as [|x l IHl]; constructor;
          [apply sleep_for_floor | exact IHl]. }
      split; [now rewrite St|].
      split; [destruct Sm as [Sm|Sm]; rewrite Sm; lia|].
      destruct O as [O|O]; rewrite O.
      * exists []. rewrite app_nil_r. split; [reflexivity | cbn; lia].
      * exists [the_alert (Faults.e_environ env)]. split; [reflexivity | cbn; lia].
Qed.

Lemma shows_page_nothing_new (sig : str) (env : Faults.CycleEnv) :
  Faults.shows_page db soup_get_text rt sig env ->
  Faults.no_new_content db soup_get_text rt sig env.
Proof.
  intros (html & detail & Hf & Hp & Hs). unfold Faults.no_new_content.
  now rewrite Hf, Hp.
Qed.

(** While [send_email] raises before the server has the message and the
    handler gets its line out, the cycles on a new page deliver nothing and
    keep [last_signature] and the state file. *)
Lemma retrying_cycles (sig last : str) (fails : list Faults.CycleEnv) :
  sig <> last ->
  Forall (Faults.shows_page db soup_get_text rt sig) fails ->
  Forall (fun env => Faults.fails_and_goes_on env = true) fails ->
  forall w,
  exists w',
    Faults.run_cycles db soup_get_text rt fails last w = (w', Ok last)
    /\ outbox w' = outbox w
    /\ state_file w' = state_file w.
Proof.
  intros N Hs Hr. induction Hs as [|env fails Henv _ IH]; intros w.
  - cbn. unfold ret. eauto.
  - inversion Hr as [|? ? Renv Rfails]; subst.
    cbn [Faults.run_cycles]. unfold bind.
    destruct Henv as (html & detail & Hf & Hp & Hsig). subst sig.
    rewrite (new_page_cycle db soup_get_text rt env last w html detail Hf Hp N).
    unfold Faults.fails_and_goes_on in Renv.
    destruct (Faults.failure_before_delivery env) as [e|] eqn:Fe; [|discriminate].
    assert (Hb : utf8_encodable (alert_body detail) = true).
    { rewrite (parse_availability_detail db soup_get_text html detail Hp).
      apply REASON_ABSENT_encodable. }
    destruct (send_email_fails_before_delivery env SUBJECT (alert_body detail) w e
                Fe Hb) as (w1 & -> & F1 & F2 & _).
    unfold Faults.accepts in Renv.
    destruct (Faults.stdout_error _ _); [discriminate|].
    destruct (IH Rfails (add_slept (Faults.sleep_for env)
                           (Faults.logged (Faults.e_log env)
                              (MSG_ERROR ++ exc_msg e) w1)))
      as (w' & -> & O' & F').
    exists w'. split; [reflexivity|].
    destruct (logged_keeps (Faults.e_log env) (MSG_ERROR ++ exc_msg e) w1)
      as (L1 & L2 & _).
    cbn [add_slept outbox state_file] in O', F'.
    split; congruence.
Qed.

(** A cycle on a new page in which [send_email] delivers and returns. *)
Lemma delivering_cycle (env : Faults.CycleEnv) (last : str) (w : World)
      (html detail : str) :
  Faults.e_fetch env = Ok html ->
  parse_availability db soup_get_text html = Ok (true, detail) ->
  signature_of rt html <> last ->
  Faults.delivers_and_returns env = true ->
  exists w',
    Faults.loop_body db soup_get_text rt env last w = (w', Ok (signature_of rt html))
    /\ outbox w' = outbox w ++ [the_alert (Faults.e_environ env)].
Proof.
  intros Hf Hp N Hd.
  rewrite (new_page_cycle db soup_get_text rt env last w html detail Hf Hp N).
  rewrite (parse_availability_detail db soup_get_text html detail Hp).
  rewrite (send_email_delivers_and_returns env _ _ w Hd REASON_ABSENT_encodable).
  eexists. split; [reflexivity|].
  match goal with
  | |- outbox (add_slept _ (saved ?p ?o ?s ?x)) = _ =>
      destruct (saved_frame p o s x) as (_ & _ & S3 & _);
      cbn [add_slept outbox]; rewrite S3
  end.
  match goal with
  | |- outbox (Faults.logged ?le ?m ?x) = _ =>
      destruct (logged_keeps le m x) as (_ & L4 & _); rewrite L4
  end.
  reflexivity.
Qed.

(** X12.  At least once, and once only.  When a new Available page stays
    up while [send_email] raises before the server has the message, cycle
    after cycle, the handler logging each failure, and then [send_email]
    delivers and returns, the alert is delivered in that cycle and, for as
    long as cycles show pages with that fingerprint, never again, whether
    the run goes on or is cut short by an exception. *)
Theorem alert_delivered_exactly_once
        (sig last : str) (fails rest : list Faults.CycleEnv) (ok : Faults.CycleEnv)
        (w : World) :
  sig <> last ->
  Forall (Faults.shows_page db soup_get_text rt sig) (fails ++ ok :: rest) ->
  Forall (fun env => Faults.fails_and_goes_on env = true) fails ->
  Faults.delivers_and_returns ok = true ->
  exists w' r,
    Faults.run_cycles db soup_get_text rt (fails ++ ok :: rest) last w = (w', r)
    /\ outbox w' = outbox w ++ [the_alert (Faults.e_environ ok)]
    /\ (r = Ok sig \/ exists e, r = Raise e).
Proof.
  intros N Hs Hr Hd.
  apply Forall_app in Hs. destruct Hs as [Hf Hs].
  inversion Hs as [|? ? Hok Hrest]; subst.
  rewrite run_cycles_split.
  destruct (retrying_cycles sig last fails N Hf Hr w) as (w1 & -> & O1 & _).
  cbn [Faults.run_cycles]. unfold bind.
  destruct Hok as (html & detail & Hfo & Hpo & Hsig). subst sig.
  destruct (delivering_cycle ok last w1 html detail Hfo Hpo N Hd) as (w2 & -> & O2).
  assert (Q : Forall (Faults.no_new_content db soup_get_text rt (signature_of rt html))
                     rest).
  { eapply Forall_impl; [|exact Hrest]. apply shows_page_nothing_new. }
  destruct (nothing_new_cycles db soup_get_text rt (signature_of rt html) rest Q w2)
    as (w3 & r & -> & _ & O3 & _ & R).
  exists w3, r. split; [reflexivity|]. split; [|exact R].
  now rewrite O3, O2, O1.
Qed.


(** X17.  A cycle whose fetch raises, or whose text extraction raises,
    sends no notification, opens no SMTP session and leaves the state file
    as it was.  When standard output takes the line "Erreur: " followed by
    the message of the exception, the cycle logs it and goes to sleep with
    [last_signature] as it was; when it does not, the exception raised by
    [print] leaves the iteration at once, with nothing appended to the log
    file and no sleep. *)
Theorem failed_fetch_changes_nothing
        (env : Faults.CycleEnv) (last : str) (w : World) (e : Exception) :
  Faults.e_fetch env = Raise e
  \/ (exists html,
         Faults.e_fetch env = Ok html
         /\ parse_availability db soup_get_text html = Raise e) ->
  Faults.loop_body db soup_get_text rt env last w
  = match Faults.stdout_error (Faults.e_log env)
            (lit "[" ++ Faults.now (Faults.e_log env) ++ lit "] "
             ++ MSG_ERROR ++ exc_msg e) with
    | None =>
        (add_slept (Faults.sleep_for env)
           (Faults.logged (Faults.e_log env) (MSG_ERROR ++ exc_msg e) w),
         Ok last)
    | Some e' => (w, Raise e')
    end
  /\ state_file (fst (Faults.loop_body db soup_get_text rt env last w))
     = state_file w
  /\ outbox (fst (Faults.loop_body db soup_get_text rt env last w)) = outbox w
  /\ smtp_sessions (fst (Faults.loop_body db soup_get_text rt env last w))
     = smtp_sessions w.
Proof.
  intros H.
  assert (T : Faults.try_block db soup_get_text rt env last w = (w, Raise e)).
  { rewrite try_block_steps.
    destruct H as [-> | (html & -> & ->)]; reflexivity. }
  rewrite loop_body_steps, T. split; [reflexivity|].
  destruct (handler_run env last w e) as (w' & r & -> & F1 & F2 & F3 & _).
  now cbn [fst].
Qed.

End FaultyRuns.

Lemma alert_delivered_exactly_once_witness :
  exists w' r,
    Faults.run_cycles latin1_db plain_get_text process1
      ([reliable env_refused; env_no_tls; reliable env_bad_port]
       ++ reliable env_delivers
       :: [cycle_on latin1_terminal doc_slots smtp_complete Faults.Delivered;
           reliable env_no_host])
      [] world0
    = (w', r)
    /\ outbox w' = outbox world0 ++ [the_alert (Faults.e_environ (reliable env_delivers))]
    /\ (r = Ok (signature_of process1 doc_slots) \/ exists e, r = Raise e).
Proof.
  apply (alert_delivered_exactly_once latin1_db plain_get_text process1
           (signature_of process1 doc_slots) []
           [reliable env_refused; env_no_tls; reliable env_bad_port]
           [cycle_on latin1_terminal doc_slots smtp_complete Faults.Delivered;
            reliable env_no_host]
           (reliable env_delivers) world0).
  - vm_compute. discriminate.
  - repeat apply Forall_cons; try apply Forall_nil;
      exists doc_slots, REASON_ABSENT; repeat split.
  - apply Forall_cons; [vm_compute; reflexivity|].
    apply Forall_cons; [vm_compute; reflexivity|].
    apply Forall_cons; [vm_compute; reflexivity|]. apply Forall_nil.
  - vm_compute. reflexivity.
Defined.


Lemma failed_fetch_changes_nothing_witness :
  Faults.loop_body latin1_db plain_get_text process1 env_no_browser (lit "42")
    (world_with_state (lit "42"))
  = match Faults.stdout_error (Faults.e_log env_no_browser)
            (lit "[" ++ Faults.now (Faults.e_log env_no_browser) ++ lit "] "
             ++ MSG_ERROR ++ exc_msg no_browser) with
    | None =>
        (add_slept (Faults.sleep_for env_no_browser)
           (Faults.logged (Faults.e_log env_no_browser)
              (MSG_ERROR ++ exc_msg no_browser) (world_with_state (lit "42"))),
         Ok (lit "42"))
    | Some e' => (world_with_state (lit "42"), Raise e')
    end
  /\ state_file (fst (Faults.loop_body latin1_db plain_get_text process1
                        env_no_browser (lit "42") (world_with_state (lit "42"))))
     = state_file (world_with_state (lit "42"))
  /\ outbox (fst (Faults.loop_body latin1_db plain_get_text process1
                    env_no_browser (lit "42") (world_with_state (lit "42"))))
     = outbox (world_with_state (lit "42"))
  /\ smtp_sessions (fst (Faults.loop_body latin1_db plain_get_text process1
                           env_no_browser (lit "42") (world_with_state (lit "42"))))
     = smtp_sessions (world_with_state (lit "42")).
Proof.
  apply (failed_fetch_changes_nothing latin1_db plain_get_text process1
           env_no_browser (lit "42") (world_with_state (lit "42")) no_browser).
  left. reflexivity.
Defined.
